(** * BERNAISE post-processing: a shallow embedding of [postprocess.py]
      and [analysis_scripts/flux_in_time.py], with the properties of the
      time-series engine stated over it.

    Conventions of the embedding.
    - A Python exception is a value of [exn]; a fallible function returns
      [result A].
    - A Python [dict] is an insertion-ordered association list with unique
      keys ([PyDict]): [dict(pairs)] and [d[k] = v] keep the position of a
      key that is already present and append a new one.
    - A float is an element of an arbitrary type [F] with decidable equality
      and a decidable total order (the finite floats with [<=]); nothing in
      the development computes with floats, values are only moved around and
      compared.
    - A numpy array is a list; a two-dimensional array is a list of rows.
    - What the libraries compute (dolfin assembly, the zero level set, the
      cell format of [np.savetxt]) enters as a parameter of the function
      that calls it.

    The file has three parts: the embedding of the source, the vocabulary
    of the properties with a worked archive, and the properties. *)

From Stdlib Require Import Ascii String ZArith Lia.
From stdpp Require Import sorting strings numbers.
From stdpp Require Import base option list.

(** ** Exceptions and results *)

Inductive exn : Type :=
  | KeyError | IndexError | ValueError | TypeError | RuntimeError | SystemExit.

Inductive result (A : Type) : Type :=
  | Ok (a : A)
  | Raise (e : exn).
Arguments Ok {A} a.
Arguments Raise {A} e.

Global Instance result_bind : MBind result := λ A B k m,
  match m with
  | Ok a => k a
  | Raise e => Raise e
  end.

Global Instance result_fmap : FMap result := λ A B g m,
  match m with
  | Ok a => Ok (g a)
  | Raise e => Raise e
  end.

Definition of_option {A} (e : exn) (o : option A) : result A :=
  match o with
  | Some a => Ok a
  | None => Raise e
  end.

(** Inversion of a sequence of binds that returned. *)
Ltac bind_inv H :=
  repeat match type of H with
         | mbind _ ?m = Ok _ =>
             let E := fresh "E" in
             destruct m eqn:E; cbn [mbind result_bind] in H; [|discriminate H]
         end.

(** [[g(a) for a in l]] where [g] may raise: the first exception, in
    iteration order, aborts the whole comprehension. *)
Fixpoint map_result {A B} (g : A → result B) (l : list A) : result (list B) :=
  match l with
  | [] => Ok []
  | a :: l' => b ← g a; bs ← map_result g l'; Ok (b :: bs)
  end.

(** ** Insertion-ordered dictionaries *)

Module PyDict.
Section dict.
Context {K V : Type} `{EqDecision K}.

Definition dict := list (K * V).

(** [d[k]] (as an option), [k in d]. *)
Fixpoint get (k : K) (d : list (K * V)) : option V :=
  match d with
  | [] => None
  | (k', v) :: d' => if decide (k = k') then Some v else get k d'
  end.

Definition mem (k : K) (d : list (K * V)) : bool :=
  if get k d is Some _ then true else false.

(** [d[k] = v]. *)
Fixpoint set (k : K) (v : V) (d : list (K * V)) : list (K * V) :=
  match d with
  | [] => [(k, v)]
  | (k', v') :: d' =>
      if decide (k = k') then (k, v) :: d' else (k', v') :: set k v d'
  end.

Definition keys (d : list (K * V)) : list K := d.*1.
Definition items (d : list (K * V)) : list (K * V) := d.

(** [dict(pairs)]. *)
Definition of_pairs (l : list (K * V)) : list (K * V) :=
  foldl (fun d kv => set kv.1 kv.2 d) [] l.

End dict.
Arguments dict : clear implicits.
End PyDict.

(** ** Python keys and numpy arrays *)

(** Hashable Python values used as keys: strings, integers and flat tuples
    of these. *)
Inductive atom : Type :=
  | AStr (s : string)
  | AInt (n : Z).

Inductive pykey : Type :=
  | KAtom (a : atom)
  | KTuple (l : list atom).

Global Instance atom_eq_dec : EqDecision atom.
Proof. solve_decision. Defined.
Global Instance pykey_eq_dec : EqDecision pykey.
Proof. solve_decision. Defined.

Definition KStr (s : string) : pykey := KAtom (AStr s).

(** [seq[i]] for a Python list and an integer index: a negative index counts
    from the end, an index out of range raises [IndexError]. *)
Definition py_index {A} (l : list A) (i : Z) : result A :=
  if decide (0 ≤ i)%Z then of_option IndexError (l !! Z.to_nat i)
  else if decide (- Z.of_nat (length l) ≤ i)%Z
       then of_option IndexError (l !! Z.to_nat (Z.of_nat (length l) + i))
       else Raise IndexError.

Section postprocess.
(** [F]: the floats; [P]: the parameter mapping of one checkpoint, as
    [common.load_parameters] fills it. *)
Context {F P : Type} `{EqDecision F}.

(** A one- or two-dimensional float array. *)
Inductive ndarray : Type :=
  | Arr1 (l : list F)
  | Arr2 (rows : list (list F)).

(** What [a[i]] is for an integer [i]: a float or a row. *)
Inductive cell : Type :=
  | CScalar (v : F)
  | CRow (r : list F).

Definition arr_getitem (a : ndarray) (i : nat) : result cell :=
  match a with
  | Arr1 l => CScalar <$> of_option IndexError (l !! i)
  | Arr2 rows => CRow <$> of_option IndexError (rows !! i)
  end.

(** [a[:, :n]] and [a[:, i]] of a two-dimensional array. *)
Definition arr_take_cols (n : nat) (a : ndarray) : result ndarray :=
  match a with
  | Arr1 _ => Raise IndexError
  | Arr2 rows => Ok (Arr2 (take n <$> rows))
  end.

Definition arr_col (i : nat) (a : ndarray) : result ndarray :=
  match a with
  | Arr1 _ => Raise IndexError
  | Arr2 rows => Arr1 <$> map_result (fun r => of_option IndexError (r !! i)) rows
  end.

(** Storing a cell into one slot of a float vector: a float, or an array
    holding exactly one float. *)
Definition cell_to_float (c : cell) : result F :=
  match c with
  | CScalar v => Ok v
  | CRow [v] => Ok v
  | CRow _ => Raise ValueError
  end.

(** [values[:] = new]: same length, or a single value broadcast. *)
Definition assign_slice (values new : list F) : result (list F) :=
  if decide (length new = length values) then Ok new
  else match new with
       | [v] => Ok (replicate (length values) v)
       | _ => Raise ValueError
       end.

(** A dolfin function over the owned degrees of freedom: a scalar function
    is its local vector, a vector-valued function is one block per
    component ([f.sub(i)]); its local vector is the blocks in sequence. *)
Inductive Function : Type :=
  | Scalar (vec : list F)
  | Vector (subs : list (list F)).

Definition get_local (f : Function) : list F :=
  match f with
  | Scalar vec => vec
  | Vector subs => mjoin subs
  end.

Definition set_local (f : Function) (values : list F) : Function :=
  match f with
  | Scalar _ => Scalar values
  | Vector subs => Vector (reshape (length <$> subs) values)
  end.

(** [df.assign(f.sub(i), g)]. *)
Definition assign_sub (f : Function) (i : nat) (g : Function) : result Function :=
  match f with
  | Scalar _ => Raise RuntimeError
  | Vector subs =>
      if decide (i < length subs) then Ok (Vector (<[i := get_local g]> subs))
      else Raise RuntimeError
  end.

Definition prep (x_list : list F) : list F := x_list.

Record TimeSeries : Type := mkTimeSeries {
  parameters : list (F * P);
  nodes : list (list F);
  elems : list (list nat);
  times : list F;
  datasets : list (pykey * list ndarray);
  fields : list pykey;
  dim : nat;
  x : list (list F);
  xdict : list (list F * nat);
  dummy_function : Function
}.

Definition with_dummy (ts : TimeSeries) (g : Function) : TimeSeries :=
  mkTimeSeries (parameters ts) (nodes ts) (elems ts) (times ts) (datasets ts)
    (fields ts) (dim ts) (x ts) (xdict ts) g.

Definition with_datasets (ts : TimeSeries) (d : list (pykey * list ndarray))
    (fs : list pykey) : TimeSeries :=
  mkTimeSeries (parameters ts) (nodes ts) (elems ts) (times ts) d fs (dim ts)
    (x ts) (xdict ts) (dummy_function ts).

(** *** The coordinate index *)

(** [comm.bcast(obj, root)]: every rank receives the object of [root]. *)
Definition bcast {A} (local : nat → A) (root : nat) : nat → A :=
  fun _ => local root.

Definition xdict_of_nodes (nds : list (list F)) : list (list F * nat) :=
  PyDict.of_pairs (imap (fun i x_list => (prep x_list, i)) nds).

(** [_make_xdict], run by every rank; [nds r] is [self.nodes] of rank [r]. *)
Definition _make_xdict (nds : nat → list (list F)) (rank : nat)
    : option (list (list F * nat)) :=
  bcast (fun r => if decide (r = 0) then Some (xdict_of_nodes (nds r)) else None)
        0 rank.

(** [xdict[prep(x_val)]] on the broadcast object. *)
Definition xdict_lookup (xd : option (list (list F * nat))) (x_val : list F)
    : result nat :=
  match xd with
  | None => Raise TypeError
  | Some d => of_option KeyError (PyDict.get (prep x_val) d)
  end.

(** *** [set_val] and [update] *)

Definition set_val (ts : TimeSeries) (f : Function) (f_data : ndarray)
    : result Function :=
  let values := get_local f in
  cells ← map_result (fun x_val =>
                  i ← of_option KeyError (PyDict.get (prep x_val) (xdict ts));
                  arr_getitem f_data i) (x ts);
  new ← map_result cell_to_float cells;
  values' ← assign_slice values new;
  Ok (set_local f values').

(** The loop [for i in range(self.dim)] of [update], from component [i]
    for [n] more components. *)
Fixpoint update_u (n i : nat) (u_data : ndarray) (ts : TimeSeries) (f : Function)
    : result (TimeSeries * Function) :=
  match n with
  | 0 => Ok (ts, f)
  | S n' =>
      col ← arr_col i u_data;
      g ← set_val ts (dummy_function ts) col;
      f' ← assign_sub f i g;
      update_u n' (S i) u_data (with_dummy ts g) f'
  end.

Definition update (ts : TimeSeries) (f : Function) (field : string) (step : Z)
    : result (TimeSeries * Function) :=
  if decide (field = "u"%string) then
    series ← of_option KeyError (PyDict.get (KStr "u") (datasets ts));
    snap ← py_index series step;
    u_data ← arr_take_cols (dim ts) snap;
    update_u (dim ts) 0 u_data ts f
  else
    series ← of_option KeyError (PyDict.get (KStr field) (datasets ts));
    f_data ← py_index series step;
    f' ← set_val ts f f_data;
    Ok (ts, f').

(** *** Loading the archive *)

(** [<=] on floats; [a < b] is [a <= b] and not [b <= a]. *)
Context (fle : relation F) `{!RelDecision fle}.

Definition flt (a b : F) : Prop := fle a b ∧ ¬ fle b a.

(** [sorted(d.items())] for a dict keyed by floats: the keys of a dict are
    pairwise different, so the order of the result is decided by the keys
    alone and the values are never compared. *)
Definition key_le {V} : relation (F * V) := fun a b => fle a.1 b.1.

#[export] Instance key_le_dec {V} : RelDecision (@key_le V).
Proof. intros a b. unfold key_le. apply _. Defined.

Definition sorted_items {V} (d : list (F * V)) : list (F * V) :=
  merge_sort key_le d.

(** One field file of a checkpoint, [<field>_from_tstep_<n>.xdmf] with its
    [.h5] payload: the [(time, array)] entries in the order of the index
    document, and the mesh stored beside them. *)
Record field_file : Type := mkFieldFile {
  ff_field : string;
  ff_dsets : list (F * ndarray);
  ff_nodes : list (list F);
  ff_elems : list (list nat)
}.

(** One checkpoint, [parameters_from_tstep_<n>.dat] with the field files
    that carry its suffix, in the order [glob] lists them. *)
Record checkpoint : Type := mkCheckpoint {
  from_tstep : Z;
  t_0 : F;
  cp_parameters : P;
  cp_files : list field_file
}.

(** The attributes [_load_timeseries] assigns. *)
Record loaded : Type := mkLoaded {
  l_parameters : list (F * P);
  l_nodes : option (list (list F));
  l_elems : option (list (list nat));
  l_times : list F;
  l_datasets : list (pykey * list ndarray);
  l_fields : list pykey
}.

(** The state of the two nested [glob] loops: [self.parameters] (still a
    dict), [data], [self.nodes] and [self.elems]. *)
Record load_state : Type := mkLoadState {
  ls_parameters : list (F * P);
  ls_data : list (string * list (F * ndarray));
  ls_nodes : option (list (list F));
  ls_elems : option (list (list nat))
}.

Definition sought (sought_fields : option (list string)) (field : string) : bool :=
  match sought_fields with
  | None => true
  | Some l => bool_decide (field ∈ l)
  end.

(** The body of the inner loop, for one field file. *)
Definition load_file (sought_fields : option (list string)) (st : load_state)
    (ff : field_file) : load_state :=
  let field := ff_field ff in
  if sought sought_fields field then
    let data := if PyDict.mem field (ls_data st) then ls_data st
                else PyDict.set field [] (ls_data st) in
    let mesh_missing := match ls_nodes st, ls_elems st with
                        | Some _, Some _ => false
                        | _, _ => true
                        end in
    let nds := if mesh_missing then Some (ff_nodes ff) else ls_nodes st in
    let els := if mesh_missing then Some (ff_elems ff) else ls_elems st in
    let entry := foldl (fun d ta => PyDict.set ta.1 ta.2 d)
                       (default [] (PyDict.get field data)) (ff_dsets ff) in
    mkLoadState (ls_parameters st) (PyDict.set field entry data) nds els
  else st.

(** The body of the outer loop, for one checkpoint. *)
Definition load_checkpoint (sought_fields : option (list string)) (st : load_state)
    (cp : checkpoint) : load_state :=
  let st' := mkLoadState (PyDict.set (t_0 cp) (cp_parameters cp) (ls_parameters st))
                         (ls_data st) (ls_nodes st) (ls_elems st) in
  foldl (load_file sought_fields) st' (cp_files cp).

(** The body of the loop [for i, key in enumerate(data.keys())]: the state
    is [(self.times, self.datasets)]. *)
Definition collect_step (data : list (string * list (F * ndarray)))
    (acc : list F * list (pykey * list ndarray)) (ik : nat * string)
    : list F * list (pykey * list ndarray) :=
  let '(i, key) := ik in
  let tmps := sorted_items (default [] (PyDict.get key data)) in
  ((if decide (i = 0) then tmps.*1 else acc.1),
   PyDict.set (KStr key) tmps.*2 acc.2).

Definition collect (data : list (string * list (F * ndarray)))
    : list F * list (pykey * list ndarray) :=
  foldl (collect_step data) ([], []) (imap pair (PyDict.keys data)).

(** [folders_exist]: both [Settings] and [Timeseries] are there; otherwise
    the process exits. *)
Definition _load_timeseries (folders_exist : bool) (checkpoints : list checkpoint)
    (sought_fields : option (list string)) : result loaded :=
  if folders_exist then
    let st := foldl (load_checkpoint sought_fields)
                    (mkLoadState [] [] None None) checkpoints in
    let '(tms, dsets) := collect (ls_data st) in
    Ok (mkLoaded (sorted_items (ls_parameters st)) (ls_nodes st) (ls_elems st)
                 tms dsets (PyDict.keys dsets))
  else Raise SystemExit.

(** *** Parameters in force at a time *)

(** The loop [for i in range(len(self.parameters)-1)] of [get_parameters],
    over the records from position [i] on. *)
Fixpoint scan_parameters (ps : list (F * P)) (time : F) : option P :=
  match ps with
  | (time_a, p_a) :: ((time_b, _) :: _) as rest =>
      if decide (flt time_a time ∧ fle time time_b) then Some p_a
      else scan_parameters rest time
  | _ => None
  end.

Definition get_parameters (ps : list (F * P)) (time : F) : result P :=
  if decide (length ps = 1) then snd <$> py_index ps 0
  else
    first ← py_index ps 0;
    if decide (fle time first.1) then Ok first.2
    else match scan_parameters ps time with
         | Some p => Ok p
         | None => snd <$> py_index ps (-1)
         end.

(** *** Indexing the series *)

(** What [ts[key]] evaluates to. *)
Inductive pyval : Type :=
  | VNone
  | VSeries (series : list ndarray)
  | VArray (a : ndarray).

(** [len(key)] and [key[i]] for a string or a tuple; an integer has
    neither. *)
Definition py_len (key : pykey) : result nat :=
  match key with
  | KAtom (AStr s) => Ok (String.length s)
  | KAtom (AInt _) => Raise TypeError
  | KTuple l => Ok (length l)
  end.

Definition key_item (key : pykey) (i : nat) : result atom :=
  match key with
  | KAtom (AStr s) =>
      (fun c => AStr (String c EmptyString)) <$> of_option IndexError (String.get i s)
  | KAtom (AInt _) => Raise TypeError
  | KTuple l => of_option IndexError (l !! i)
  end.

(** [series[k]] for a list [series]: an integer indexes it, a string is a
    [TypeError]. *)
Definition series_item (series : list ndarray) (k : atom) : result ndarray :=
  match k with
  | AInt i => py_index series i
  | AStr _ => Raise TypeError
  end.

Definition __getitem__ (ts : TimeSeries) (key : pykey) : result pyval :=
  n ← py_len key;
  if decide (n = 1) then
    VSeries <$> of_option KeyError (PyDict.get key (datasets ts))
  else if decide (n = 2) then
    k0 ← key_item key 0;
    k1 ← key_item key 1;
    series ← of_option KeyError (PyDict.get (KAtom k0) (datasets ts));
    VArray <$> series_item series k1
  else Ok VNone.

Definition __setitem__ (ts : TimeSeries) (key : pykey) (val : list ndarray)
    : TimeSeries :=
  with_datasets ts (PyDict.set key val (datasets ts)) (fields ts).

Definition add_field (ts : TimeSeries) (field : string) (dsets : list ndarray)
    : TimeSeries :=
  let ts' := __setitem__ ts (KStr field) dsets in
  with_datasets ts' (datasets ts') (PyDict.keys (datasets ts')).

Definition __len__ (ts : TimeSeries) : nat := length (times ts).


(** *** Geometry in time *)

(** [range(start, stop, step)] for non-negative arguments. *)
Definition py_range (start stop step : nat) : list nat :=
  if decide (step = 0) then []
  else (fun k => start + k * step) <$> seq 0 ((stop - start + (step - 1)) / step).

(** The float operations and the numerical kernels of [geometry_in_time],
    which the embedding does not look into:
    [mask_of v] is [0.5*(1.-np.sign(v))];
    [contour_length nodes elems phi] is
    [path_length(zero_level_set(nodes, elems, phi))];
    [assemble f] is [df.assemble(f*df.dx)]. *)
Context (fzero : F) (fmul fdiv : F → F → F) (mask_of : F → F)
        (contour_length : list (list F) → list (list nat) → list F → F)
        (assemble : Function → F).

(** The arrays and functions the step loop updates. *)
Record geometry_state : Type := mkGeometryState {
  f_mask : Function;
  f_mask_x : list Function;
  lengths : list F;
  areas : list F;
  areas_x : list (list F)
}.

Definition arr1 (a : ndarray) : result (list F) :=
  match a with
  | Arr1 l => Ok l
  | Arr2 _ => Raise ValueError
  end.

(** The loop [for d in range(ts.dim)] that fills [f_mask_x[d]] from
    [mask*ts.nodes[:, d]] (two arrays with one entry per node), from axis
    [d] for [n] more axes. *)
Fixpoint set_mask_x (n d : nat) (ts : TimeSeries) (mask : list F) (fs : list Function)
    : result (list Function) :=
  match n with
  | 0 => Ok fs
  | S n' =>
      f ← of_option IndexError (fs !! d);
      col ← arr_col d (Arr2 (nodes ts)) ≫= arr1;
      f' ← set_val ts f (Arr1 (zip_with fmul mask col));
      set_mask_x n' (S d) ts mask (<[d := f']> fs)
  end.

(** The loop [for d in range(ts.dim)] that stores
    [areas_x[d][step] = df.assemble(f_mask_x[d]*df.dx)]. *)
Fixpoint set_areas_x (n d step : nat) (fs : list Function) (ax : list (list F))
    : result (list (list F)) :=
  match n with
  | 0 => Ok ax
  | S n' =>
      f ← of_option IndexError (fs !! d);
      a ← of_option IndexError (ax !! d);
      set_areas_x n' (S d) step fs (<[d := <[step := assemble f]> a]> ax)
  end.

(** The body of [for step in range(rank, len(ts), size)]. *)
Definition geometry_step (ts : TimeSeries) (st : geometry_state) (step : nat)
    : result geometry_state :=
  v ← __getitem__ ts (KTuple [AStr "phi"; AInt (Z.of_nat step)]);
  snapshot ← match v with VArray a => Ok a | _ => Raise TypeError end;
  phi ← arr_col 0 snapshot ≫= arr1;
  let mask := mask_of <$> phi in
  fm ← set_val ts (f_mask st) (Arr1 mask);
  fmx ← set_mask_x (dim ts) 0 ts mask (f_mask_x st);
  let lengths' := <[step := contour_length (nodes ts) (elems ts) phi]> (lengths st) in
  let areas' := <[step := assemble fm]> (areas st) in
  ax ← set_areas_x (dim ts) 0 step fmx (areas_x st);
  Ok (mkGeometryState fm fmx lengths' areas' ax).

Fixpoint geometry_steps (ts : TimeSeries) (st : geometry_state) (steps : list nat)
    : result geometry_state :=
  match steps with
  | [] => Ok st
  | step :: steps' => st' ← geometry_step ts st step; geometry_steps ts st' steps'
  end.

(** [geometry_in_time(ts)] as run by rank [rank] of [size]: what that rank
    writes to [time_data.dat], if anything; a row is
    [(time, length, area, CoM_x, CoM_y)]. [new_function] is
    [df.Function(ts.function_space)]. *)
Definition geometry_in_time (rank size : nat) (new_function : Function)
    (ts : TimeSeries) : result (option (list (list F))) :=
  let n := __len__ ts in
  let st0 := mkGeometryState new_function (replicate (dim ts) new_function)
               (replicate n fzero) (replicate n fzero)
               (replicate (dim ts) (replicate n fzero)) in
  st ← geometry_steps ts st0 (py_range rank n size);
  if decide (rank = 0) then
    ax0 ← of_option IndexError (areas_x st !! 0);
    ax1 ← of_option IndexError (areas_x st !! 1);
    let com_x := zip_with fdiv ax0 (areas st) in
    let com_y := zip_with fdiv ax1 (areas st) in
    Ok (Some (zip_with (fun t r => t :: r) (times ts)
                (zip_with (fun l r => l :: r) (lengths st)
                   (zip_with (fun a r => a :: r) (areas st)
                      (zip_with (fun cx cy => [cx; cy]) com_x com_y)))))
  else Ok None.

End postprocess.

(** ** Python strings *)

Module PyStr.

(** [s.split(sep)] for a one-character separator. *)
Fixpoint split (sep : ascii) (s : string) : list string :=
  match s with
  | EmptyString => [EmptyString]
  | String c s' =>
      if decide (c = sep) then EmptyString :: split sep s'
      else match split sep s' with
           | [] => [String c EmptyString]
           | w :: ws => String c w :: ws
           end
  end.

(** [sep.join(l)]. *)
Fixpoint join (sep : string) (l : list string) : string :=
  match l with
  | [] => EmptyString
  | [w] => w
  | w :: l' => w +:+ sep +:+ join sep l'
  end.

Definition lower_ascii (c : ascii) : ascii :=
  let n := nat_of_ascii c in
  if decide (65 ≤ n ≤ 90) then ascii_of_nat (n + 32) else c.

(** [s.lower()] on ASCII text. *)
Fixpoint lower (s : string) : string :=
  match s with
  | EmptyString => EmptyString
  | String c s' => String (lower_ascii c) (lower s')
  end.

Fixpoint contains (c : ascii) (s : string) : bool :=
  match s with
  | EmptyString => false
  | String c' s' => bool_decide (c' = c) || contains c s'
  end.

Definition starts_with (c : ascii) (s : string) : bool :=
  match s with
  | String c' _ => bool_decide (c' = c)
  | EmptyString => false
  end.

Definition tab : ascii := ascii_of_nat 9.
Definition newline : ascii := ascii_of_nat 10.
Definition space : ascii := ascii_of_nat 32.
Definition hash : ascii := ascii_of_nat 35.
Definition comma : ascii := ascii_of_nat 44.

Definition of_ascii (c : ascii) : string := String c EmptyString.

(** A cell that cannot be mistaken for a separator or a comment. *)
Definition clean (s : string) : bool :=
  negb (contains space s) && negb (contains tab s)
  && negb (contains newline s) && negb (starts_with hash s)
  && negb (bool_decide (s = EmptyString)).

End PyStr.

(** ** Flux in time *)

Section flux_in_time.
(** [F]: the floats, with [<=]; [B]: the boundary predicates of the problem
    module ([df.SubDomain] objects); [E]: the flux expressions. *)
Context {F B E : Type} `{EqDecision F} (fle : relation F) `{!RelDecision fle}.

(** A boundary predicate: one supplied by the problem, or
    [CrossSection(x0, dim)]. *)
Inductive SubDomain : Type :=
  | Problem (b : B)
  | CrossSection (x0 : F) (dim : nat).

(** One marking pass: the named boundaries in the order they are marked. *)
Definition marking_pass : Type := list (string * list SubDomain).

(** [a.min()] and [a.max()] of a one-dimensional array; the empty array has
    neither. *)
Definition arr_min (l : list F) : result F :=
  match l with
  | [] => Raise ValueError
  | v :: l' => Ok (foldl (fun m w => if decide (fle m w) then m else w) v l')
  end.

Definition arr_max (l : list F) : result F :=
  match l with
  | [] => Raise ValueError
  | v :: l' => Ok (foldl (fun m w => if decide (fle m w) then w else m) v l')
  end.

(** [nodes[:, d]]. *)
Definition nodes_col (d : nat) (nodes : list (list F)) : result (list F) :=
  map_result (fun r => of_option IndexError (r !! d)) nodes.

(** One of the four [if "..." in extra_boundaries_keys] statements of
    [get_boundaries_list]: [extremum] is [min] or [max] of column [d]. *)
Definition add_cross_section (key name : string) (extremum : list F → result F)
    (d : nat) (extra_boundaries_keys : list string) (nodes : list (list F))
    (extra_boundaries : marking_pass) : result marking_pass :=
  if decide (key ∈ extra_boundaries_keys) then
    col ← nodes_col d nodes;
    x0 ← extremum col;
    Ok (extra_boundaries ++ [(name, [CrossSection x0 d])])
  else Ok extra_boundaries.

Definition get_boundaries_list (boundaries : list (string * list SubDomain))
    (pbc : option SubDomain) (extra_boundaries_keys : list string)
    (nodes : list (list F)) : result (list marking_pass) :=
  let boundaries := PyDict.items boundaries in
  let boundaries := match pbc with
                    | Some p => ("periodic"%string, [p]) :: boundaries
                    | None => boundaries
                    end in
  e ← add_cross_section "left" "extra_left" arr_min 0 extra_boundaries_keys nodes [];
  e ← add_cross_section "right" "extra_right" arr_max 0 extra_boundaries_keys nodes e;
  e ← add_cross_section "top" "extra_top" arr_max 1 extra_boundaries_keys nodes e;
  e ← add_cross_section "bottom" "extra_bottom" arr_min 1 extra_boundaries_keys nodes e;
  let boundaries_list := [boundaries] in
  if decide (0 < length e) then Ok (boundaries_list ++ [e]) else Ok boundaries_list.

(** A facet function ([df.MeshFunction]) is represented by the marking calls
    made on it, oldest first: [boundary.mark(subdomain, m)] appends
    [(boundary, m)]. *)
Definition mesh_function : Type := list (SubDomain * nat).

Definition mark_all (boundary_list : list SubDomain) (m : nat)
    (subdomain : mesh_function) : mesh_function :=
  foldl (fun sd boundary => sd ++ [(boundary, m)]) subdomain boundary_list.

(** The inner loop of [get_boundary_to_mark] over
    [enumerate(boundaries_list[k])], from position [i]. *)
Fixpoint mark_pass (k i : nat) (pass : marking_pass) (subdomain : mesh_function)
    (boundary_to_mark : list (string * (nat * nat)))
    : mesh_function * list (string * (nat * nat)) :=
  match pass with
  | [] => (subdomain, boundary_to_mark)
  | (name, boundary_list) :: pass' =>
      mark_pass k (S i) pass' (mark_all boundary_list (i + 1) subdomain)
                (PyDict.set name (i + 1, k) boundary_to_mark)
  end.

(** The outer loop over [enumerate(subdomains)], from position [k]. *)
Fixpoint mark_passes (k : nat) (subdomains : list mesh_function)
    (boundaries_list : list marking_pass)
    (boundary_to_mark : list (string * (nat * nat)))
    : result (list mesh_function * list (string * (nat * nat))) :=
  match subdomains with
  | [] => Ok ([], boundary_to_mark)
  | subdomain :: subdomains' =>
      pass ← of_option IndexError (boundaries_list !! k);
      let '(subdomain', btm) := mark_pass k 0 pass subdomain boundary_to_mark in
      r ← mark_passes (S k) subdomains' boundaries_list btm;
      Ok (subdomain' :: r.1, r.2)
  end.

(** [get_boundary_to_mark], returning the marked facet functions beside the
    dict. *)
Definition get_boundary_to_mark (subdomains : list mesh_function)
    (boundaries_list : list marking_pass)
    : result (list mesh_function * list (string * (nat * nat))) :=
  mark_passes 0 subdomains boundaries_list [].

(** [fetch_boundaries]: [boundaries] and [pbc] are what the problem module's
    [create_bcs] and [constrained_domain] return; the measure [ds[k]] is the
    facet function [k]. *)
Definition fetch_boundaries (boundaries : list (string * list SubDomain))
    (pbc : option SubDomain) (extra_boundaries : string) (nodes : list (list F))
    : result (list (string * (nat * nat)) * list mesh_function) :=
  let extra_boundaries_keys := PyStr.lower <$> PyStr.split PyStr.comma extra_boundaries in
  boundaries_list ← get_boundaries_list boundaries pbc extra_boundaries_keys nodes;
  let subdomains := (fun _ => []) <$> boundaries_list in
  r ← get_boundary_to_mark subdomains boundaries_list;
  Ok (r.2, r.1).

End flux_in_time.

(** ** The flux tables *)

Section flux_table.
(** [F]: the floats; [E]: the flux expressions. [of_int n] is [float(n)];
    [fmt v] is ['%.18e' % v], the cell format of [np.savetxt];
    [flux_integral flux k mark step] is
    [df.assemble(df.dot(flux, n)*ds[k](mark))] once every field has been
    updated to [step]. *)
Context {F E : Type} (of_int : Z → F) (fmt : F → string)
        (flux_integral : E → nat → nat → Z → F).

(** [zip] applied to the unpacked columns: as many rows as the shortest
    column has entries. *)
Definition py_zip (columns : list (list F)) : list (list F) :=
  match columns with
  | [] => []
  | c :: cs =>
      let n := foldr Nat.min (length c) (length <$> cs) in
      (fun i => omap (fun col => col !! i) columns) <$> seq 0 n
  end.

(** [sorted(fluxes.keys())]: strings in lexicographic order. *)
Definition flux_keys (fluxes : list (string * E)) : list string :=
  merge_sort String.le (PyDict.keys fluxes).

(** The array [data[boundary_name][flux_name]] when the step loop is over:
    slot [i] holds the integral at [steps[i]]. *)
Definition flux_column (fluxes : list (string * E)) (mark k : nat) (steps : list Z)
    (flux_name : string) : result (list F) :=
  flux ← of_option KeyError (PyDict.get flux_name fluxes);
  Ok ((fun step => flux_integral flux k mark step) <$> steps).

(** [savedata[boundary_name]]: the rows [(step, time, flux...)]. *)
Definition savedata (times : list F) (fluxes : list (string * E)) (steps : list Z)
    (mark_k : nat * nat) : result (list (list F)) :=
  t ← map_result (fun step => py_index times step) steps;
  columns ← map_result (flux_column fluxes mark_k.1 mark_k.2 steps) (flux_keys fluxes);
  Ok (py_zip ((of_int <$> steps) :: t :: columns)).

(** The header line [method] passes to [np.savetxt]. *)
Definition flux_header (fluxes : list (string * E)) : string :=
  "Step" +:+ PyStr.of_ascii PyStr.tab +:+ "Time" +:+ PyStr.of_ascii PyStr.tab
  +:+ PyStr.join (PyStr.of_ascii PyStr.tab) (flux_keys fluxes).

(** [np.savetxt(outfile, X, header=header)] with its defaults: every header
    line is prefixed by [# ], every row is its cells in format [fmt] joined
    by one space, every line ends in a newline. *)
Definition savetxt (X : list (list F)) (header : string) : string :=
  let nl := PyStr.of_ascii PyStr.newline in
  let header_lines := (fun l => "# " +:+ l +:+ nl) <$> PyStr.split PyStr.newline header in
  let rows := (fun row => PyStr.join (PyStr.of_ascii PyStr.space) (fmt <$> row) +:+ nl) <$> X in
  foldr String.append EmptyString (header_lines ++ rows).

(** The files [method] writes on rank [rank]: name and content, one per key
    of [boundary_to_mark]. The steps come from [get_steps(ts, dt)]. *)
Definition method (rank : nat) (times : list F)
    (boundary_to_mark : list (string * (nat * nat))) (fluxes : list (string * E))
    (steps : list Z) : result (list (string * string)) :=
  tables ← map_result
              (fun bm : string * (nat * nat) =>
                 pair bm.1 <$> savedata times fluxes steps bm.2)
              (PyDict.items boundary_to_mark);
  if decide (rank = 0) then
    Ok (map (fun bX : string * list (list F) =>
               ("flux_in_time_" +:+ bX.1 +:+ ".dat",
                savetxt bX.2 (flux_header fluxes))) tables)
  else Ok [].

End flux_table.

(** ** Integer-valued floats

    The concrete inputs of the development use floats with integer values,
    written as elements of [Z], with the cell format of [np.savetxt] for
    them: ['%.18e' % 12.0] is [1.200000000000000000e+01]. *)

Module IntFloat.

Definition digit_char (d : nat) : ascii := ascii_of_nat (48 + d).

(** The decimal digits of [n], most significant first; [fuel] bounds their
    number. *)
Fixpoint digits_aux (fuel : nat) (n : N) (acc : list nat) : list nat :=
  match fuel with
  | 0 => acc
  | S fuel' =>
      let acc' := N.to_nat (n mod 10)%N :: acc in
      if decide (n < 10)%N then acc' else digits_aux fuel' (n / 10)%N acc'
  end.

Definition digits (n : N) : list nat := digits_aux (S (N.to_nat (N.log2 n))) n [].

Definition string_of_digits (ds : list nat) : string :=
  foldr (fun d s => String (digit_char d) s) EmptyString ds.

Definition two_digits (n : nat) : list nat := [n / 10; n mod 10].

(** ['%.18e' % float(v)] for an integer [v] of at most 19 digits. *)
Definition fmt (v : Z) : string :=
  let ds := digits (Z.abs_N v) in
  let frac := take 18 (drop 1 ds ++ replicate 18 0) in
  (if decide (v < 0)%Z then "-" else "")
  +:+ string_of_digits (take 1 ds) +:+ "." +:+ string_of_digits frac
  +:+ "e+" +:+ string_of_digits (two_digits (length ds - 1)).

Definition digit_of_char (c : ascii) : option nat :=
  let n := nat_of_ascii c in
  if decide (48 ≤ n ≤ 57) then Some (n - 48) else None.

Fixpoint chars (s : string) : list ascii :=
  match s with
  | EmptyString => []
  | String c s' => c :: chars s'
  end.

Definition number_of_digits (ds : list nat) : Z :=
  foldl (fun acc d => (10 * acc + Z.of_nat d)%Z) 0%Z ds.

(** [float(s)] for a string in the format of [fmt] whose value is an
    integer; anything else is not a number here. *)
Definition parse (s : string) : option Z :=
  let '(neg, cs) := match chars s with
                    | c :: cs' => if decide (c = "-"%char) then (true, cs') else (false, c :: cs')
                    | [] => (false, [])
                    end in
  match cs with
  | d0 :: dot :: rest =>
      if decide (dot = "."%char ∧ length rest = 22
                 ∧ rest !! 18 = Some "e"%char ∧ rest !! 19 = Some "+"%char) then
        lead ← digit_of_char d0;
        frac ← mapM digit_of_char (take 18 rest);
        ex ← mapM digit_of_char (drop 20 rest);
        let e := Z.to_nat (number_of_digits ex) in
        if decide (e ≤ 18 ∧ Forall (fun d => d = 0) (drop e frac)) then
          let m := number_of_digits (lead :: take e frac) in
          Some (if neg then (- m)%Z else m)
        else None
      else None
  | _ => None
  end.

End IntFloat.

(** * More of the source *)

(** ** File names *)

Module PyText.

(** [s.startswith(p)]. *)
Fixpoint starts_with (p s : string) : bool :=
  match p, s with
  | EmptyString, _ => true
  | String a p', String b s' => bool_decide (a = b) && starts_with p' s'
  | String _ _, EmptyString => false
  end.

(** The pieces of [s.split(sep)] for a non-empty [sep], scanning from the
    left: [skip] characters of a separator just found are still to be
    passed over. *)
Fixpoint split_from (sep : string) (skip : nat) (s : string) : list string :=
  match s with
  | EmptyString => [EmptyString]
  | String c s' =>
      match skip with
      | S k => split_from sep k s'
      | 0 =>
          if starts_with sep s then EmptyString :: split_from sep (String.length sep - 1) s'
          else match split_from sep 0 s' with
               | [] => [String c EmptyString]
               | w :: ws => String c w :: ws
               end
      end
  end.

(** [s.split(sep)]: an empty separator is a [ValueError]. *)
Definition split (sep s : string) : result (list string) :=
  if decide (sep = EmptyString) then Raise ValueError else Ok (split_from sep 0 s).

End PyText.

(** [get_middle(string, prefix, suffix)]. *)
Definition get_middle (text prefix suffix : string) : result string :=
  pieces ← PyText.split prefix text;
  rest ← py_index pieces 1;
  pieces' ← PyText.split suffix rest;
  py_index pieces' 0.

(** [index2letter(index)]. *)
Definition index2letter (index : Z) : result string :=
  py_index ["x"; "y"; "z"]%string index.

(** ** More methods of the series *)

Section series_methods.
Context {F V : Type} `{EqDecision F} (fle : relation F) `{!RelDecision fle}.

(** [get_parameter(key, time, default)]: a checkpoint's parameters are a
    dict from names to values. *)
Definition get_parameter (ps : list (F * list (string * V))) (key : string) (time : F)
    (default_value : V) : result V :=
  p ← get_parameters fle ps time;
  Ok (default default_value (PyDict.get key p)).

End series_methods.

Section series_functions.
Context {F P : Type} `{EqDecision F} (fzero : F).

(** [function(field)]: a new dolfin function, all zero, vector-valued for
    ["u"]; [n] is the number of owned degrees of freedom of the scalar
    space. *)
Definition function (ts : @TimeSeries F P) (field : pykey) : @Function F :=
  let n := length (x ts) in
  if decide (field = KStr "u") then Vector (replicate (dim ts) (replicate n fzero))
  else Scalar (replicate n fzero).

(** [functions(fields)]; [None] stands for the fields of the series. *)
Definition functions (ts : @TimeSeries F P) (fields_arg : option (list pykey))
    : list (pykey * @Function F) :=
  let fs := match fields_arg with
            | None => fields ts
            | Some l => l
            end in
  foldl (fun f field => PyDict.set field (function ts field) f) [] fs.

(** [update(f, field, step)] for any key: only the string ["u"] takes the
    vector branch. *)
Definition update_field (ts : @TimeSeries F P) (f : @Function F) (field : pykey)
    (step : Z) : result (@TimeSeries F P * @Function F) :=
  match field with
  | KAtom (AStr name) => update ts f name step
  | _ =>
      series ← of_option KeyError (PyDict.get field (datasets ts));
      f_data ← py_index series step;
      f' ← set_val ts f f_data;
      Ok (ts, f')
  end.

(** The loop of [update_all] over the fields still to be updated; the
    function stored under a field is updated in place. *)
Fixpoint update_all_loop (ts : @TimeSeries F P) (f : list (pykey * @Function F))
    (fs : list pykey) (step : Z)
    : result (@TimeSeries F P * list (pykey * @Function F)) :=
  match fs with
  | [] => Ok (ts, f)
  | field :: fs' =>
      g ← of_option KeyError (PyDict.get field f);
      r ← update_field ts g field step;
      update_all_loop r.1 (PyDict.set field r.2 f) fs' step
  end.

Definition update_all (ts : @TimeSeries F P) (f : list (pykey * @Function F)) (step : Z)
    : result (@TimeSeries F P * list (pykey * @Function F)) :=
  update_all_loop ts f (fields ts) step.

End series_functions.

(** * The vocabulary of the properties *)

Section field_update_vocabulary.
Context {F P : Type} `{EqDecision F}.
Implicit Types (ts : @TimeSeries F P) (f g : @Function F) (f_data : @ndarray F).

(** The cell [set_val] reads for one degree of freedom. *)
Definition read_cell ts f_data (x_val : list F) : result (@cell F) :=
  i ← of_option KeyError (PyDict.get (prep x_val) (xdict ts));
  arr_getitem f_data i.

(** [update] leaves everything but the dummy function as it was. *)
Definition same_mesh ts ts' : Prop :=
  x ts' = x ts ∧ xdict ts' = xdict ts ∧ nodes ts' = nodes ts
  ∧ datasets ts' = datasets ts ∧ dim ts' = dim ts.

(** The values a pass of [set_val] collects: for every owned degree of
    freedom, the entry [item i] of the source at the node index [i] its
    coordinate has in the index. *)
Definition gather ts (item : nat → option F) : option (list F) :=
  mapM (fun x_val => PyDict.get (prep x_val) (xdict ts) ≫= item) (x ts).

(** The entry of a snapshot for a node index [i] and a component [d]. *)
Definition component (rows : list (list F)) (d i : nat) : option F :=
  rows !! i ≫= fun row => row !! d.

(** Degree of freedom with coordinate [x_val] holds [v], the value of
    component [d] of the snapshot [rows] at the node with that
    coordinate. *)
Definition snapshot_value ts (rows : list (list F)) (d : nat) (x_val : list F) (v : F)
    : Prop :=
  ∃ i row, PyDict.get (prep x_val) (xdict ts) = Some i ∧ nodes ts !! i = Some x_val
           ∧ rows !! i = Some row ∧ row !! d = Some v.

(** An archive and a function space over the same mesh: the index was built
    from the nodes, every owned degree of freedom sits on a node, and the
    snapshot has one row per node. *)
Definition same_discretization ts (rows : list (list F)) : Prop :=
  xdict ts = xdict_of_nodes (nodes ts)
  ∧ Forall (fun x_val => x_val ∈ nodes ts) (x ts)
  ∧ length rows = length (nodes ts).

End field_update_vocabulary.

Section loading_vocabulary.
Context {F P : Type} `{EqDecision F}.
Implicit Types (cps : list (@checkpoint F P)) (files : list (@field_file F))
  (sf : option (list string)) (field : string)
  (data : list (string * list (F * @ndarray F))).

(** The field files of all checkpoints, in the order they are read. *)
Definition all_files cps : list (@field_file F) := cps ≫= cp_files.

(** All the [(time, snapshot)] entries read for [field], in reading order;
    none when the field is not sought. *)
Definition entries sf files field : list (F * @ndarray F) :=
  filter (fun ff => ff_field ff = field ∧ sought sf field = true) files ≫= ff_dsets.

(** The entries of [field] keyed by time: a time stamp that occurs more than
    once keeps the snapshot read last. *)
Definition merged sf cps field : list (F * @ndarray F) :=
  PyDict.of_pairs (entries sf (all_files cps) field).


(** What [load_file] does to [data]. *)
Definition data_step sf data (ff : @field_file F) :=
  if sought sf (ff_field ff) then
    PyDict.set (ff_field ff)
      (foldl (fun d ta => PyDict.set ta.1 ta.2 d)
         (default [] (PyDict.get (ff_field ff) data)) (ff_dsets ff)) data
  else data.

End loading_vocabulary.

Section geometry_vocabulary.
Context {F : Type}.
Implicit Types (st : @geometry_state F).

(** Slot [s] of every result array is the same in both states. *)
Definition untouched (s : nat) st st' : Prop :=
  lengths st' !! s = lengths st !! s
  ∧ areas st' !! s = areas st !! s
  ∧ length (areas_x st') = length (areas_x st)
  ∧ ∀ d, (areas_x st' !! d) ≫= (fun a => a !! s) = (areas_x st !! d) ≫= (fun a => a !! s).

End geometry_vocabulary.

Section geometry_step_vocabulary.
Context {F P : Type} `{EqDecision F} (fmul : F → F → F) (mask_of : F → F)
        (contour_length : list (list F) → list (list nat) → list F → F)
        (assemble : @Function F → F).
Implicit Types (ts : @TimeSeries F P) (st : @geometry_state F).

(** What the body of the step loop reads and sets at step [s], entered in
    state [st]: [phi] is the first column of the snapshot of [phi] at [s],
    [fm] and [fmx] are the mask function and the mask-times-coordinate
    functions set from it. *)
Definition step_functions ts st (s : nat) (phi : list F) (fm : @Function F)
    (fmx : list (@Function F)) : Prop :=
  (∃ snapshot, __getitem__ ts (KTuple [AStr "phi"; AInt (Z.of_nat s)]) = Ok (VArray snapshot)
               ∧ arr_col 0 snapshot ≫= arr1 = Ok phi)
  ∧ set_val ts (f_mask st) (Arr1 (mask_of <$> phi)) = Ok fm
  ∧ set_mask_x fmul (dim ts) 0 ts (mask_of <$> phi) (f_mask_x st) = Ok fmx.

(** Slot [s] of the result arrays holds the quantities of these: the contour
    length of [phi] and the integrals of [fm] and of every [fmx[d]]. *)
Definition holds_step ts st (s : nat) (phi : list F) (fm : @Function F)
    (fmx : list (@Function F)) : Prop :=
  lengths st !! s = Some (contour_length (nodes ts) (elems ts) phi)
  ∧ areas st !! s = Some (assemble fm)
  ∧ ∀ d, d < dim ts →
         ∃ f, fmx !! d = Some f
              ∧ (areas_x st !! d) ≫= (fun a => a !! s) = Some (assemble f).

End geometry_step_vocabulary.

Section boundary_vocabulary.
Context {F B : Type}.
Implicit Types (pass : list (string * list (@SubDomain F B)))
  (bl : list (list (string * list (@SubDomain F B)))).

(** Pass 1: the named boundaries in the order of the mapping, after the
    periodic boundary when there is one. *)
Definition pass_one (boundaries : list (string * list (@SubDomain F B)))
    (pbc : option (@SubDomain F B)) : list (string * list (@SubDomain F B)) :=
  match pbc with
  | Some p => ("periodic"%string, [p]) :: boundaries
  | None => boundaries
  end.

(** The names of pass 2: the cross-sections requested, always in the order
    left, right, top, bottom. *)
Definition cross_section_names (extra_boundaries_keys : list string) : list string :=
  (if decide ("left"%string ∈ extra_boundaries_keys) then ["extra_left"%string] else [])
  ++ (if decide ("right"%string ∈ extra_boundaries_keys) then ["extra_right"%string] else [])
  ++ (if decide ("top"%string ∈ extra_boundaries_keys) then ["extra_top"%string] else [])
  ++ (if decide ("bottom"%string ∈ extra_boundaries_keys) then ["extra_bottom"%string] else []).

(** The marking calls of one pass: every predicate of the boundary at
    position [j] is marked [i + j + 1]. *)
Definition marks_from (i : nat) pass : list (@SubDomain F B * nat) :=
  mjoin (imap (fun j nb => (fun b => (b, i + j + 1)) <$> nb.2) pass).

(** The entries written to [boundary_to_mark] for the passes from number
    [k] on. *)
Definition entries_from (k : nat) bl : list (string * (nat * nat)) :=
  mjoin (imap (fun j pass => imap (fun i nb => (nb.1, (i + 1, k + j))) pass) bl).

End boundary_vocabulary.

Section flux_table_vocabulary.
Context {F E : Type} (of_int : Z → F) (fmt : F → string)
        (flux_integral : E → nat → nat → Z → F)
        (parse_float : string → option F).
Implicit Types (row : list F) (fluxes : list (string * E)).

(** A cell whose text reads back as the cell and cannot be mistaken for a
    separator or a comment. *)
Definition good_cell (v : F) : Prop :=
  parse_float (fmt v) = Some v ∧ PyStr.clean (fmt v) = true.

(** The text of one row, without its newline. *)
Definition row_line row : string :=
  PyStr.join (PyStr.of_ascii PyStr.space) (fmt <$> row).

(** The row written for [step] on the boundary marked [mark] in pass [k]:
    the step, its time, and the integral of every flux, the fluxes taken in
    the sorted order of their names. *)
Definition row_of (times : list F) fluxes (mark_k : nat * nat) (step : Z) row : Prop :=
  ∃ t fl, py_index times step = Ok t
          ∧ Forall2 (fun name flux => PyDict.get name fluxes = Some flux)
                    (flux_keys fluxes) fl
          ∧ row = of_int step :: t
                  :: ((fun flux => flux_integral flux mark_k.2 mark_k.1 step) <$> fl).

(** Reading a table back as rows of numbers separated by [delimiter], as a
    consumer of the tables would (no function of the repository reads them):
    lines are split at newlines, empty lines and comment lines (those
    starting with [#]) are skipped, every other line is split at
    [delimiter] and every piece must parse as a number. *)
Definition reparse (parse_float : string → option F) (delimiter : ascii)
    (text : string) : option (list (list F)) :=
  let lines := filter (fun l => l ≠ EmptyString ∧ PyStr.starts_with PyStr.hash l = false)
                      (PyStr.split PyStr.newline text) in
  mapM (fun l => mapM parse_float (PyStr.split delimiter l)) lines.

(** The step indices of a re-read table: its first column, as integers. *)
Definition step_indices (to_int : F → option Z) (rows : list (list F))
    : option (list Z) :=
  mapM (fun row => head row ≫= to_int) rows.

End flux_table_vocabulary.

Section file_name_vocabulary.

(** The position of the first occurrence of [sep] in [s], as [s.find(sep)]
    gives it; [None] when there is none. *)
Fixpoint first_occurrence (sep s : string) : option nat :=
  if PyText.starts_with sep s then Some 0
  else match s with
       | EmptyString => None
       | String _ s' => S <$> first_occurrence sep s'
       end.

End file_name_vocabulary.

(** * A worked archive: the unit square

    Four nodes [(0,0), (1,0), (1,1), (0,1)], two triangles, the phase field
    [phi] with values [-1,-1,1,1] at time 0 and [1,-1,1,-1] at time 1, and a
    velocity field [u] stored with three columns. Floats have integer
    values here. *)

Module UnitSquare.

Definition nodes0 : list (list Z) := [[0; 0]; [1; 0]; [1; 1]; [0; 1]]%Z.
Definition elems0 : list (list nat) := [[0; 1; 2]; [0; 2; 3]].

Definition phi_t0 : list (list Z) := [[-1]; [-1]; [1]; [1]]%Z.
Definition phi_t1 : list (list Z) := [[1]; [-1]; [1]; [-1]]%Z.
Definition u_t0 : list (list Z) := [[1; 2; 0]; [3; 4; 0]; [5; 6; 0]; [7; 8; 0]]%Z.
Definition u_t1 : list (list Z) := [[8; 7; 0]; [6; 5; 0]; [4; 3; 0]; [2; 1; 0]]%Z.

(** The coordinates of the owned degrees of freedom, in the order of the
    function space. *)
Definition x0 : list (list Z) := [[1; 1]; [0; 0]; [0; 1]; [1; 0]]%Z.

Definition ts0 : @TimeSeries Z string :=
  mkTimeSeries [(0%Z, "simple"%string)] nodes0 elems0 [0; 1]%Z
    [(KStr "phi", [Arr2 phi_t0; Arr2 phi_t1]); (KStr "u", [Arr2 u_t0; Arr2 u_t1])]
    [KStr "phi"; KStr "u"] 2 x0 (xdict_of_nodes nodes0) (Scalar [0; 0; 0; 0]%Z).

(** The same series seen from a function space with a degree of freedom at
    [(5,5)], which is no node of the archive. *)
Definition ts_mismatch : @TimeSeries Z string :=
  mkTimeSeries (parameters ts0) nodes0 elems0 (times ts0) (datasets ts0) (fields ts0)
    2 [[1; 1]; [5; 5]]%Z (xdict_of_nodes nodes0) (Scalar [0; 0]%Z).

(** Stand-ins for the numerical kernels, with integer values: the mask is 1
    where the phase is negative; the contour length counts the element
    edges across which the phase changes sign; the integral is the sum of
    the nodal values; division is that of [Z]. *)
Definition mask_of (v : Z) : Z := if decide (v < 0)%Z then 1%Z else 0%Z.

Definition edges (elem : list nat) : list (nat * nat) :=
  match elem with
  | [a; b; c] => [(a, b); (b, c); (c, a)]
  | _ => []
  end.

Definition sign_change (phi : list Z) (e : nat * nat) : bool :=
  match phi !! e.1, phi !! e.2 with
  | Some a, Some b => bool_decide (a * b < 0)%Z
  | _, _ => false
  end.

Definition contour_length (nodes : list (list Z)) (elems : list (list nat))
    (phi : list Z) : Z :=
  Z.of_nat (length (filter (fun e => sign_change phi e = true) (elems ≫= edges))).

Definition assemble (f : @Function Z) : Z := foldr Z.add 0%Z (get_local f).

Definition geometry (rank size : nat) : result (option (list (list Z))) :=
  geometry_in_time 0%Z Z.mul Z.div mask_of contour_length assemble rank size
    (Scalar [0; 0; 0; 0]%Z) ts0.

(** Two checkpoints of a run restarted at step 2; the second repeats time 1
    with another snapshot. *)
Definition checkpoints0 : list (@checkpoint Z string) :=
  [mkCheckpoint 0%Z 0%Z "simple"%string
     [mkFieldFile "phi" [(0%Z, Arr2 phi_t0); (1%Z, Arr2 phi_t1)] nodes0 elems0;
      mkFieldFile "u" [(0%Z, Arr2 u_t0); (1%Z, Arr2 u_t1)] nodes0 elems0];
   mkCheckpoint 2%Z 1%Z "simple"%string
     [mkFieldFile "phi" [(2%Z, Arr2 phi_t0); (1%Z, Arr2 phi_t0)] nodes0 elems0]].

(** The boundaries of a problem with walls and a periodic pair. *)
Definition boundaries0 : list (string * list (@SubDomain Z string)) :=
  [("wall"%string, [Problem "DirichletBoundary"%string]);
   ("inlet"%string, [Problem "Left"%string; Problem "LeftCorner"%string])].
Definition pbc0 : option (@SubDomain Z string) := Some (Problem "PeriodicBoundary"%string).

(** Marker identifiers handed out in the order the names were supplied, as
    the specification words it: the first name gets 1, the next 2, ... *)
Definition marks_in_supplied_order (names : list string) : list (string * nat) :=
  imap (fun i name => (name, i + 1)) names.

(** The fluxes: an expression is represented by an integer, and its integral
    over a boundary at a step by an integer built from all four. *)
Definition fluxes0 : list (string * Z) :=
  [("Velocity"%string, 1%Z); ("Phase"%string, 2%Z); ("Mass"%string, 3%Z)].
Definition flux_integral0 (flux : Z) (k mark : nat) (step : Z) : Z :=
  (1000 * flux + 100 * Z.of_nat k + 10 * Z.of_nat mark + step)%Z.
Definition boundary_to_mark0 : list (string * (nat * nat)) :=
  [("wall"%string, (1, 0)); ("extra_left"%string, (1, 1))].

Definition flux_files (steps : list Z) : result (list (string * string)) :=
  method (fun n : Z => n) IntFloat.fmt flux_integral0 0 [0; 1]%Z boundary_to_mark0
    fluxes0 steps.

(** The passes for the request [top,left], and the tables written for the
    steps iterated in the order 1, 0. *)
Definition passes0 : list (list (string * list (@SubDomain Z string))) :=
  [("periodic"%string, [Problem "PeriodicBoundary"%string]) :: boundaries0;
   [("extra_left"%string, [CrossSection 0%Z 0]);
    ("extra_top"%string, [CrossSection 1%Z 1])]].

Definition files0 : list (string * string) :=
  Eval vm_compute in
    match flux_files [1; 0]%Z with
    | Ok files => files
    | Raise _ => []
    end.

End UnitSquare.

(** * Properties *)

(** ** Facts about results and dictionaries *)

Lemma map_result_Ok_inv {A B} (g : A → result B) l bs :
  map_result g l = Ok bs → Forall2 (fun a b => g a = Ok b) l bs.
Proof.
  revert bs. induction l as [|a l IH]; simpl; intros bs Hm.
  - injection Hm as <-. constructor.
  - destruct (g a) as [b|e] eqn:Hg; simpl in Hm; [|discriminate].
    destruct (map_result g l) as [bs'|e] eqn:Hl; simpl in Hm; [|discriminate].
    injection Hm as <-. constructor; auto.
Qed.

Lemma map_result_Ok_intro {A B} (g : A → result B) l bs :
  Forall2 (fun a b => g a = Ok b) l bs → map_result g l = Ok bs.
Proof.
  induction 1 as [|a b l bs Hg _ IH]; simpl; [done|].
  by rewrite Hg; simpl; rewrite IH.
Qed.

Lemma map_result_Raise {A B} (g : A → result B) l a e :
  a ∈ l → g a = Raise e → ∃ e', map_result g l = Raise e'.
Proof.
  induction l as [|a' l IH]; intros Hin Hg; [by apply elem_of_nil in Hin|].
  simpl. destruct (g a') as [b|e1] eqn:Hg'; simpl; [|by eauto].
  apply elem_of_cons in Hin as [->|Hin]; [congruence|].
  destruct (IH Hin Hg) as [e' ->]. simpl. eauto.
Qed.

Module PyDictFacts.
Import PyDict.
Section dict_facts.
Context {K V : Type} `{EqDecision K}.
Implicit Types (d l : list (K * V)) (k : K) (v : V).

Lemma get_set_eq k v d : get k (set k v d) = Some v.
Proof.
induction d as [|[k' v'] d IH]; simpl.
- by rewrite decide_True.
- destruct (decide (k = k')) as [->|Hne]; simpl.
  + by rewrite decide_True.
  + by rewrite decide_False.
Qed.

Lemma get_set_ne k k' v d : k ≠ k' → get k' (set k v d) = get k' d.
Proof.
intros Hne. induction d as [|[k1 v1] d IH]; simpl.
- by rewrite decide_False.
- destruct (decide (k = k1)) as [->|Hne1]; simpl.
  + by rewrite !decide_False.
  + destruct (decide (k' = k1)); [done|apply IH].
Qed.

Lemma get_set k k' v d :
get k' (set k v d) = if decide (k' = k) then Some v else get k' d.
Proof.
destruct (decide (k' = k)) as [->|Hne].
- apply get_set_eq.
- by apply get_set_ne.
Qed.

Lemma keys_set k v d :
keys (set k v d) = if mem k d then keys d else keys d ++ [k].
Proof.
unfold mem, keys. induction d as [|[k' v'] d IH]; csimpl; [done|].
destruct (decide (k = k')) as [->|Hne]; csimpl; [done|].
rewrite IH. by destruct (get k d).
Qed.

Lemma mem_keys k d : mem k d = true ↔ k ∈ keys d.
Proof.
unfold mem, keys. induction d as [|[k' v'] d IH]; csimpl.
- split; [done|by intros ?%elem_of_nil].
- rewrite elem_of_cons. destruct (decide (k = k')) as [->|Hne].
  + split; auto.
  + rewrite IH. split; [auto|]. by intros [?|?].
Qed.

Lemma get_Some_keys k d : is_Some (get k d) ↔ k ∈ keys d.
Proof.
unfold keys. induction d as [|[k' v'] d IH]; csimpl.
- split; [by intros [? ?]|by intros ?%elem_of_nil].
- rewrite elem_of_cons. destruct (decide (k = k')) as [->|Hne].
  + split; eauto.
  + rewrite IH. split; [auto|]. by intros [?|?].
Qed.

Lemma get_None_keys k d : get k d = None ↔ k ∉ keys d.
Proof. rewrite <-get_Some_keys, eq_None_not_Some. done. Qed.

Lemma NoDup_keys_set k v d : NoDup (keys d) → NoDup (keys (set k v d)).
Proof.
intros Hnd. rewrite keys_set. destruct (mem k d) eqn:Hm; [done|].
apply NoDup_app. split_and!; [done| |apply NoDup_singleton].
intros k' Hin ->%list_elem_of_singleton.
apply mem_keys in Hin. congruence.
Qed.

Lemma get_elem_of k v d : get k d = Some v → (k, v) ∈ d.
Proof.
induction d as [|[k' v'] d IH]; simpl; [done|].
destruct (decide (k = k')) as [->|Hne].
- intros [= ->]. apply elem_of_cons; auto.
- intros H. apply elem_of_cons; auto.
Qed.

Lemma elem_of_get k v d : NoDup (keys d) → (k, v) ∈ d → get k d = Some v.
Proof.
unfold keys. induction d as [|[k' v'] d IH]; csimpl.
- by intros _ ?%elem_of_nil.
- intros [Hnin Hnd]%NoDup_cons [[= -> ->]|Hin]%elem_of_cons.
  + by rewrite decide_True.
  + rewrite decide_False; [auto|].
    intros ->. apply Hnin. apply list_elem_of_fmap. by exists (k', v).
Qed.

Lemma of_pairs_snoc l k v : of_pairs (l ++ [(k, v)]) = set k v (of_pairs l).
Proof. unfold of_pairs. by rewrite foldl_app. Qed.

Lemma NoDup_keys_of_pairs l : NoDup (keys (of_pairs l)).
Proof.
induction l as [|[k v] l IH] using rev_ind; [constructor|].
rewrite of_pairs_snoc. by apply NoDup_keys_set.
Qed.

(** A key of [dict(pairs)] is a key of some pair, and conversely. *)
Lemma keys_of_pairs k l : k ∈ keys (of_pairs l) ↔ k ∈ l.*1.
Proof.
induction l as [|[k' v] l IH] using rev_ind.
- done.
- rewrite of_pairs_snoc, fmap_app, elem_of_app, <-IH. simpl.
  rewrite list_elem_of_singleton, <-!get_Some_keys, get_set.
  destruct (decide (k = k')) as [->|Hne]; [split; eauto|].
  split; [auto|]. by intros [?|?].
Qed.

(** The value stored under a key is the value of one of its pairs. *)
Lemma get_of_pairs_elem_of k v l : get k (of_pairs l) = Some v → (k, v) ∈ l.
Proof.
induction l as [|[k' v'] l IH] using rev_ind; [done|].
rewrite of_pairs_snoc, get_set, elem_of_app, list_elem_of_singleton.
destruct (decide (k = k')) as [->|Hne]; [intros [= ->]; auto|auto].
Qed.
End dict_facts.
End PyDictFacts.

(** ** The coordinate index *)

Section coordinate_index.
Context {F : Type} `{EqDecision F}.
Implicit Types (nds : list (list F)) (c : list F).

(** An index found in the dict is the position of a node with exactly that
    coordinate. *)
Lemma xdict_of_nodes_sound nds c i :
  PyDict.get c (xdict_of_nodes nds) = Some i → nds !! i = Some c.
Proof.
  intros Hget. apply PyDictFacts.get_of_pairs_elem_of in Hget.
  apply elem_of_lookup_imap in Hget as (j & y & [= -> ->] & Hj). done.
Qed.

(** Every coordinate of a node is a key of the dict. *)
Lemma xdict_of_nodes_complete nds c :
  c ∈ nds → is_Some (PyDict.get c (xdict_of_nodes nds)).
Proof.
  intros Hin. apply PyDictFacts.get_Some_keys, PyDictFacts.keys_of_pairs.
  apply list_elem_of_lookup in Hin as [i Hi].
  apply list_elem_of_fmap. exists (c, i). split; [done|].
  apply elem_of_lookup_imap. by exists i, c.
Qed.

(** C3. Whatever nodes the ranks hold, every rank receives the dict that
    rank 0 built from its own nodes: two ranks looking up the same
    coordinate tuple get the same answer (the same node index, or the same
    [KeyError]), the keys are the coordinate tuples themselves ([prep]
    changes nothing), and an index returned is the position of a node of
    rank 0 with exactly that coordinate. *)
Theorem xdict_lookup_same_on_every_rank (nds : nat → list (list F)) (r1 r2 : nat) c :
  _make_xdict nds r1 = _make_xdict nds r2
  ∧ xdict_lookup (_make_xdict nds r1) c = xdict_lookup (_make_xdict nds r2) c
  ∧ _make_xdict nds r1 = Some (xdict_of_nodes (nds 0))
  ∧ prep c = c
  ∧ (∀ i, xdict_lookup (_make_xdict nds r1) c = Ok i → nds 0 !! i = Some c).
Proof.
  unfold _make_xdict, bcast. rewrite decide_True by done. split_and!; try done.
  intros i. unfold xdict_lookup, prep.
  destruct (PyDict.get c (xdict_of_nodes (nds 0))) as [j|] eqn:Hget; simpl; [|done].
  intros [= ->]. by apply xdict_of_nodes_sound.
Qed.

End coordinate_index.

(** ** Field update *)

Section field_update.
Context {F P : Type} `{EqDecision F}.
Implicit Types (ts : @TimeSeries F P) (f g : @Function F) (f_data : @ndarray F)
  (rows : list (list F)).

Lemma set_val_unfold ts f f_data :
  set_val ts f f_data =
    (cells ← map_result (read_cell ts f_data) (x ts);
     new ← map_result cell_to_float cells;
     values' ← assign_slice (get_local f) new;
     Ok (set_local f values')).
Proof. done. Qed.

Lemma read_cell_lookup_error ts f_data x_val e :
  read_cell ts f_data x_val = Raise e → e = KeyError ∨ e = IndexError.
Proof.
  unfold read_cell. destruct (PyDict.get _ _) as [i|]; simpl; [|intros [= <-]; auto].
  destruct f_data as [l|rows]; simpl.
  - destruct (l !! i); simpl; intros [= <-]; auto.
  - destruct (rows !! i); simpl; intros [= <-]; auto.
Qed.

Lemma map_result_Raise_inv {A B} (h : A → result B) l e :
  map_result h l = Raise e → ∃ a, a ∈ l ∧ h a = Raise e.
Proof.
  induction l as [|a l IH]; simpl; [done|].
  destruct (h a) as [b|e1] eqn:Hh; simpl.
  - destruct (map_result h l) as [bs|e2]; simpl; [done|].
    intros [= <-]. destruct IH as (a' & Hin & Ha'); [done|].
    exists a'. split; [by apply elem_of_cons; right|done].
  - intros [= <-]. exists a. split; [by apply elem_of_cons; left|done].
Qed.

(** A coordinate that is not in the index makes [set_val] raise, and the
    exception is a lookup error. *)
Lemma set_val_missing ts f f_data x_val :
  x_val ∈ x ts → PyDict.get (prep x_val) (xdict ts) = None →
  ∃ e, set_val ts f f_data = Raise e ∧ (e = KeyError ∨ e = IndexError).
Proof.
  intros Hin Hget. rewrite set_val_unfold.
  assert (read_cell ts f_data x_val = Raise KeyError) as Hcell.
  { unfold read_cell. by rewrite Hget. }
  destruct (map_result_Raise _ _ _ _ Hin Hcell) as [e He].
  rewrite He. simpl. exists e. split; [done|].
  apply map_result_Raise_inv in He as (a & _ & Ha).
  by eapply read_cell_lookup_error.
Qed.

(** The values [set_val] stores, when every read succeeds. *)
Lemma set_val_Ok ts f f_data cells new :
  Forall2 (fun x_val c => read_cell ts f_data x_val = Ok c) (x ts) cells →
  Forall2 (fun c v => cell_to_float c = Ok v) cells new →
  length (get_local f) = length (x ts) →
  set_val ts f f_data = Ok (set_local f new).
Proof.
  intros Hcells Hnew Hlen. rewrite set_val_unfold.
  rewrite (map_result_Ok_intro _ _ _ Hcells). simpl.
  rewrite (map_result_Ok_intro _ _ _ Hnew). simpl.
  unfold assign_slice. rewrite decide_True; [done|].
  rewrite Hlen. apply Forall2_length in Hcells, Hnew. congruence.
Qed.

Lemma py_index_error {A} (l : list A) i e : py_index l i = Raise e → e = IndexError.
Proof.
  unfold py_index. repeat case_decide; [| |by intros [= <-]];
    destruct (_ !! _); simpl; by intros [= <-].
Qed.

(** ... and so does [update], whose loop over the components runs at least
    once on a mesh of positive dimension. *)
Lemma update_missing ts f field step x_val :
  x_val ∈ x ts → PyDict.get (prep x_val) (xdict ts) = None → 0 < dim ts →
  ∃ e, update ts f field step = Raise e ∧ (e = KeyError ∨ e = IndexError).
Proof.
  intros Hin Hget Hdim. unfold update.
  destruct (decide (field = "u"%string)) as [->|Hne].
  - destruct (PyDict.get (KStr _) _) as [series|]; simpl; [|by eauto].
    destruct (py_index series step) as [snap|e1] eqn:Hidx; simpl.
    2:{ apply py_index_error in Hidx as ->. eauto. }
    destruct snap as [l|rows]; simpl; [by eauto|].
    destruct (dim ts) as [|n]; [lia|]. simpl.
    destruct (map_result _ _) as [col|e1] eqn:Hcol; simpl.
    2:{ apply map_result_Raise_inv in Hcol as (r & _ & Hr).
        destruct (_ !! 0); simpl in Hr; [done|]. injection Hr as <-. eauto. }
    destruct (set_val_missing ts (dummy_function ts) (Arr1 col) x_val Hin Hget)
      as (e2 & -> & Hk).
    simpl. eauto.
  - destruct (PyDict.get (KStr _) _) as [series|]; simpl; [|by eauto].
    destruct (py_index series step) as [snap|e1] eqn:Hidx; simpl.
    2:{ apply py_index_error in Hidx as ->. eauto. }
    destruct (set_val_missing ts f snap x_val Hin Hget) as (e2 & -> & Hk).
    simpl. eauto.
Qed.

(** C7. If the coordinate of some locally-owned degree of freedom is not a
    key of the coordinate index, [set_val] raises a lookup error
    ([KeyError], or an [IndexError] met earlier in the same pass) before any
    value is stored: it returns no updated function. The same holds for
    [update] on a mesh of positive dimension. *)
Theorem missing_coordinate_aborts ts f f_data field step x_val :
  x_val ∈ x ts → PyDict.get (prep x_val) (xdict ts) = None →
  (∃ e, set_val ts f f_data = Raise e ∧ (e = KeyError ∨ e = IndexError))
  ∧ (0 < dim ts →
     ∃ e, update ts f field step = Raise e ∧ (e = KeyError ∨ e = IndexError)).
Proof.
  intros Hin Hget. split.
  - by apply set_val_missing with x_val.
  - intros Hdim. by apply update_missing with x_val.
Qed.

Lemma set_val_gather ts f f_data item (mk : F → @cell F) new :
  (∀ v, cell_to_float (mk v) = Ok v) →
  (∀ i v, item i = Some v → arr_getitem f_data i = Ok (mk v)) →
  gather ts item = Some new →
  length (get_local f) = length (x ts) →
  set_val ts f f_data = Ok (set_local f new).
Proof.
  intros Hmk Hitem Hg Hlen. apply mapM_Some in Hg.
  apply set_val_Ok with (cells := mk <$> new); [| |done].
  2:{ apply Forall2_fmap_l. clear Hg. induction new; constructor; auto. }
  apply Forall2_fmap_r. eapply Forall2_impl; [exact Hg|].
  intros x_val v Hv. unfold read_cell. simpl in Hv.
  destruct (PyDict.get (prep x_val) (xdict ts)) as [i|]; simpl in *; [|done].
  by apply Hitem.
Qed.

Lemma gather_is_Some ts rows d :
  same_discretization ts rows → Forall (fun row => d < length row) rows →
  is_Some (gather ts (component rows d)).
Proof.
  intros (Hxd & Hx & Hlen) Hrows. apply mapM_is_Some.
  eapply Forall_impl; [exact Hx|]. intros x_val Hin. simpl.
  destruct (xdict_of_nodes_complete _ _ Hin) as [i Hi].
  unfold prep. rewrite Hxd, Hi. simpl.
  apply xdict_of_nodes_sound, lookup_lt_Some in Hi. rewrite <-Hlen in Hi.
  destruct (lookup_lt_is_Some_2 _ _ Hi) as [row Hrow].
  unfold component. rewrite Hrow. simpl.
  apply lookup_lt_is_Some_2. by eapply (proj1 (Forall_lookup _ _) Hrows).
Qed.

Lemma gather_snapshot_value ts rows d new :
  same_discretization ts rows → gather ts (component rows d) = Some new →
  Forall2 (snapshot_value ts rows d) (x ts) new.
Proof.
  intros (Hxd & _ & _) Hg. apply mapM_Some in Hg.
  eapply Forall2_impl; [exact Hg|]. intros x_val v Hv. simpl in Hv.
  destruct (PyDict.get (prep x_val) (xdict ts)) as [i|] eqn:Hi; simpl in Hv; [|done].
  unfold component in Hv. destruct (rows !! i) as [row|] eqn:Hrow; simpl in Hv; [|done].
  exists i, row. split_and!; try done.
  apply xdict_of_nodes_sound. by rewrite <-Hxd.
Qed.

Lemma gather_length ts item new : gather ts item = Some new → length new = length (x ts).
Proof. intros Hg. symmetry. by eapply length_mapM. Qed.

Lemma py_index_nonneg {A} (l : list A) (i : Z) a :
  (0 ≤ i)%Z → l !! Z.to_nat i = Some a → py_index l i = Ok a.
Proof. intros Hi Hl. unfold py_index. rewrite decide_True by done. by rewrite Hl. Qed.

Lemma component_single rows i v :
  Forall (fun row => length row = 1) rows → component rows 0 i = Some v →
  rows !! i = Some [v].
Proof.
  intros Hrows. unfold component.
  destruct (rows !! i) as [row|] eqn:Hrow; simpl; [|done].
  pose proof (proj1 (Forall_lookup _ _) Hrows _ _ Hrow) as Hlen.
  destruct row as [|w [|? ?]]; simpl in *; try done. by intros [= ->].
Qed.

(** [u_data[:, d]] of [u_data = snapshot[:, :n]] is component [d] of the
    snapshot. *)
Lemma arr_col_take rows n d :
  d < n → Forall (fun row => n ≤ length row) rows →
  ∃ col, arr_col d (Arr2 (take n <$> rows)) = Ok (Arr1 col)
         ∧ ∀ i, col !! i = component rows d i.
Proof.
  intros Hd Hrows. unfold arr_col.
  induction Hrows as [|row rows Hrow _ (col & Hcol & Hi)]; csimpl.
  - exists []. split; [done|]. by intros [|?].
  - destruct (map_result _ _) as [col'|] eqn:Hm; simpl in Hcol; [|done].
    injection Hcol as <-.
    destruct (lookup_lt_is_Some_2 row d ltac:(lia)) as [v Hv].
    rewrite lookup_take_lt by done. rewrite Hv. simpl.
    exists (v :: col'). split; [done|]. intros [|i]; simpl; [|apply Hi].
    unfold component. simpl. done.
Qed.

(** The scalar branch of [update]. *)
Lemma update_scalar ts vec field step series rows new :
  field ≠ "u"%string →
  PyDict.get (KStr field) (datasets ts) = Some series →
  (0 ≤ step)%Z → series !! Z.to_nat step = Some (Arr2 rows) →
  Forall (fun row => length row = 1) rows →
  gather ts (component rows 0) = Some new →
  length vec = length (x ts) →
  update ts (Scalar vec) field step = Ok (ts, Scalar new).
Proof.
  intros Hne Hser Hstep Hsnap Hrows Hg Hlen. unfold update.
  rewrite decide_False by done. rewrite Hser. simpl.
  rewrite (py_index_nonneg _ _ _ Hstep Hsnap). simpl.
  rewrite (set_val_gather ts (Scalar vec) (Arr2 rows) (component rows 0)
             (fun v => CRow [v]) new); try done.
  intros i v Hv. simpl. by rewrite (component_single _ _ _ Hrows Hv).
Qed.

(** The component loop of [update]: block [d] of the result holds the values
    gathered for component [d], for every component the loop runs over. *)
Lemma update_u_blocks rows (blk : nat → list F) n : ∀ i ts subs,
  i + n = dim ts → length subs = dim ts →
  Forall (fun row => dim ts ≤ length row) rows →
  (∀ d, d < dim ts → gather ts (component rows d) = Some (blk d)) →
  (∃ dvec, dummy_function ts = Scalar dvec ∧ length dvec = length (x ts)) →
  ∃ ts' subs',
    update_u n i (Arr2 (take (dim ts) <$> rows)) ts (Vector subs) = Ok (ts', Vector subs')
    ∧ ts' = (if decide (n = 0) then ts else with_dummy ts (Scalar (blk (i + n - 1))))
    ∧ length subs' = length subs
    ∧ ∀ d, subs' !! d = if decide (i ≤ d < i + n) then Some (blk d) else subs !! d.
Proof.
  induction n as [|n IH]; intros i ts subs Hin Hsubs Hrows Hblk (dvec & Hdummy & Hdvec).
  - exists ts, subs. simpl. split_and!; try done.
    intros d. rewrite decide_False by lia. done.
  - cbn [update_u].
    destruct (arr_col_take rows (dim ts) i ltac:(lia) Hrows) as (col & -> & Hcol).
    cbn [mbind result_bind].
    rewrite (set_val_gather ts (dummy_function ts) (Arr1 col) (component rows i)
               CScalar (blk i)); simpl.
    2:{ done. }
    2:{ intros j v Hv. by rewrite Hcol, Hv. }
    2:{ apply Hblk. lia. }
    2:{ by rewrite Hdummy. }
    rewrite Hdummy. simpl. rewrite decide_True by lia. simpl.
    destruct (IH (S i) (with_dummy ts (Scalar (blk i))) (<[i := blk i]> subs))
      as (ts' & subs' & Hup & Hts' & Hlen & Hlook); simpl; try done.
    + lia.
    + by rewrite length_insert.
    + exists (blk i). split; [done|]. eapply gather_length, Hblk. lia.
    + exists ts', subs'. split_and!.
      * exact Hup.
      * rewrite Hts'. destruct (decide (n = 0)) as [->|Hn].
        -- by replace (i + 1 - 1) with i by lia.
        -- by replace (S i + n - 1) with (i + S n - 1) by lia.
      * by rewrite Hlen, length_insert.
      * intros d. rewrite Hlook. destruct (decide (d = i)) as [->|Hdi].
        -- rewrite decide_False by lia. rewrite decide_True by lia.
           apply list_lookup_insert_eq. lia.
        -- rewrite list_lookup_insert_ne by done.
           destruct (decide (S i ≤ d < S i + n)); [rewrite decide_True by lia|rewrite decide_False by lia]; done.
Qed.

(** C2. Let [field] be loaded, [step] a valid step of it with snapshot
    [rows], and the archive and the function space share the mesh. After
    [update(f, field, step)] the degree of freedom at coordinate [x_val]
    holds the snapshot's value at the node with that coordinate: for a
    scalar field (one value per node) the whole local vector, for ["u"] block
    [d] of [f] holds component [d], for every [d < dim]. The result is the
    same whatever [f] held before. *)
Theorem update_overwrites ts field step series rows :
  PyDict.get (KStr field) (datasets ts) = Some series →
  (0 ≤ step)%Z → series !! Z.to_nat step = Some (Arr2 rows) →
  same_discretization ts rows →
  (field ≠ "u"%string → Forall (fun row => length row = 1) rows →
   ∃ vec', Forall2 (snapshot_value ts rows 0) (x ts) vec'
           ∧ ∀ vec, length vec = length (x ts) →
                    update ts (Scalar vec) field step = Ok (ts, Scalar vec'))
  ∧ (field = "u"%string → Forall (fun row => dim ts ≤ length row) rows →
     (∃ dvec, dummy_function ts = Scalar dvec ∧ length dvec = length (x ts)) →
     ∃ subs', length subs' = dim ts
              ∧ (∀ d, d < dim ts →
                      ∃ blk, subs' !! d = Some blk
                             ∧ Forall2 (snapshot_value ts rows d) (x ts) blk)
              ∧ ∀ subs, length subs = dim ts →
                        ∃ ts', update ts (Vector subs) field step = Ok (ts', Vector subs')
                               ∧ same_mesh ts ts').
Proof.
  intros Hser Hstep Hsnap Hmesh. split.
  - intros Hne Hrows.
    destruct (gather_is_Some ts rows 0 Hmesh) as [new Hnew].
    { eapply Forall_impl; [exact Hrows|]. intros row ->. lia. }
    exists new. split; [by apply gather_snapshot_value|].
    intros vec Hvec. by eapply update_scalar.
  - intros -> Hrows Hdummy.
    set (blk := fun d => default [] (gather ts (component rows d))).
    assert (∀ d, d < dim ts → gather ts (component rows d) = Some (blk d)) as Hblk.
    { intros d Hd. destruct (gather_is_Some ts rows d Hmesh) as [new Hnew].
      - eapply Forall_impl; [exact Hrows|]. intros row ?. simpl in *. lia.
      - unfold blk. by rewrite Hnew. }
    exists (blk <$> seq 0 (dim ts)). split_and!.
    + by rewrite length_fmap, length_seq.
    + intros d Hd. exists (blk d). split.
      * rewrite list_lookup_fmap, lookup_seq_lt by done. done.
      * apply gather_snapshot_value; auto.
    + intros subs Hsubs.
      destruct (update_u_blocks rows blk (dim ts) 0 ts subs) as
        (ts' & subs' & Hup & Hts' & Hlen & Hlook); try done.
      exists ts'. split.
      * unfold update. rewrite decide_True by done. rewrite Hser. simpl.
        rewrite (py_index_nonneg _ _ _ Hstep Hsnap). simpl.
        rewrite Hup. do 3 f_equal. apply list_eq. intros d.
        rewrite Hlook, list_lookup_fmap.
        destruct (decide (0 ≤ d < 0 + dim ts)) as [Hd|Hd].
        -- by rewrite lookup_seq_lt by lia.
        -- rewrite lookup_seq_ge by lia. apply lookup_ge_None_2. lia.
      * rewrite Hts'. by destruct (decide (dim ts = 0)).
Qed.

End field_update.

(** ** Sorting by the float key *)

Section key_order.
Context {F V : Type} (fle : relation F).

#[export] Instance key_le_transitive `{!Transitive fle} : Transitive (@key_le F fle V).
Proof. intros a b c. unfold key_le. apply transitivity. Qed.

#[export] Instance key_le_total `{!Total fle} : Total (@key_le F fle V).
Proof. intros a b. unfold key_le. apply total, _. Qed.

End key_order.

(** ** Parameters in force at a time *)

Section parameters.
Context {F P : Type} (fle : relation F) `{!RelDecision fle} `{!PreOrder fle}.
Implicit Types (ps : list (F * P)) (time : F).

Lemma scan_parameters_Some_inv ps time p :
  scan_parameters fle ps time = Some p →
  ∃ i a b, ps !! i = Some a ∧ ps !! S i = Some b
           ∧ flt fle a.1 time ∧ fle time b.1 ∧ p = a.2.
Proof.
  induction ps as [|[ta pa] ps IH]; [done|].
  destruct ps as [|[tb pb] ps']; [done|].
  cbn [scan_parameters]. case_decide as Hc.
  - intros [= <-]. exists 0, (ta, pa), (tb, pb). by destruct Hc.
  - intros (i & a & b & ? & ? & ? & ? & ?)%IH. by exists (S i), a, b.
Qed.

Lemma scan_parameters_at ps time i a b :
  StronglySorted (key_le fle) ps →
  ps !! i = Some a → ps !! S i = Some b → flt fle a.1 time → fle time b.1 →
  scan_parameters fle ps time = Some a.2.
Proof.
  intros Hs. revert i. induction Hs as [|[ta pa] ps Hs IH Hall]; intros i Ha Hb Hlt Hle.
  - done.
  - destruct ps as [|[tb pb] ps']; [by destruct i|].
    cbn [scan_parameters]. destruct i as [|i]; simpl in Ha, Hb.
    + injection Ha as <-. injection Hb as <-. by rewrite decide_True.
    + rewrite decide_False; [by eapply IH|].
      intros [_ Htb]. destruct Hlt as [_ Hn]. apply Hn.
      transitivity tb; [done|].
      destruct i as [|i]; simpl in Ha.
      * by injection Ha as <-.
      * apply StronglySorted_inv in Hs as [_ Hall'].
        apply (proj1 (Forall_lookup _ _) Hall' _ _ Ha).
Qed.

Lemma py_index_head {A} (l : list A) : py_index l 0 = of_option IndexError (head l).
Proof. unfold py_index. rewrite decide_True by done. by destruct l. Qed.

Lemma py_index_last {A} (l : list A) :
  py_index l (-1) = of_option IndexError (last l).
Proof.
  unfold py_index. rewrite decide_False by lia.
  destruct l as [|a l]; [done|].
  rewrite decide_True by (simpl; lia).
  rewrite last_lookup. do 2 f_equal. simpl length. lia.
Qed.

(** C9. On a non-empty list of checkpoint records sorted by start time,
    [get_parameters] always returns the parameter mapping of one record:
    the first when [time <= start_0]; record [i] when
    [start_i < time <= start_(i+1)]; the last in every other case. At the
    exact start time of a later checkpoint it returns the parameters of the
    checkpoint before it. *)
Theorem get_parameters_spec ps time :
  ps ≠ [] → Sorted (key_le fle) ps →
  ∃ p, get_parameters fle ps time = Ok p
       ∧ (∃ rec, rec ∈ ps ∧ p = rec.2)
       ∧ (∀ first, head ps = Some first → fle time first.1 → p = first.2)
       ∧ (∀ i a b, ps !! i = Some a → ps !! S i = Some b →
                   flt fle a.1 time → fle time b.1 → p = a.2)
       ∧ (∀ first lst, head ps = Some first → last ps = Some lst →
                       ¬ fle time first.1 →
                       (∀ i a b, ps !! i = Some a → ps !! S i = Some b →
                                 ¬ (flt fle a.1 time ∧ fle time b.1)) →
                       p = lst.2)
       ∧ (∀ i a b, ps !! i = Some a → ps !! S i = Some b →
                   flt fle a.1 b.1 → time = b.1 → p = a.2).
Proof.
  intros Hne Hsorted. apply Sorted_StronglySorted in Hsorted; [|apply _].
  assert (∀ first i a, head ps = Some first → ps !! i = Some a → fle first.1 a.1)
    as Hfirst.
  { intros first i a Hh Ha. destruct ps as [|q ps']; [done|]. injection Hh as ->.
    destruct i as [|i]; simpl in Ha; [by injection Ha as <-|].
    apply StronglySorted_inv in Hsorted as [_ Hall].
    apply (proj1 (Forall_lookup _ _) Hall _ _ Ha). }
  destruct ps as [|first ps'] eqn:Hps; [done|]. rewrite <-Hps in *.
  assert (head ps = Some first) as Hhead by (by rewrite Hps).
  assert (is_Some (last ps)) as [lst Hlast].
  { rewrite Hps, last_cons. destruct (last ps'); eauto. }
  unfold get_parameters. rewrite py_index_head, py_index_last, Hhead, Hlast. simpl.
  destruct (decide (length ps = 1)) as [Hone|Hmany].
  - assert (ps' = []) as -> by (rewrite Hps in Hone; by destruct ps').
    subst ps. simpl in Hlast. injection Hlast as <-.
    exists first.2. split_and!.
    + done.
    + exists first. split; [apply list_elem_of_singleton|]; done.
    + by intros ? [= ->].
    + intros i a b Ha Hb. by destruct i.
    + by intros ? ? [= ->] [= ->].
    + intros i a b Ha Hb. by destruct i.
  - destruct (decide (fle time first.1)) as [Hle|Hnle].
    + exists first.2. split_and!.
      * done.
      * exists first. split; [|done]. rewrite Hps. apply elem_of_cons; auto.
      * by intros ? [= ->].
      * intros i a b Ha Hb Hlt _. destruct Hlt as [_ Hn]. destruct Hn.
        transitivity first.1; [done|]. by eapply Hfirst.
      * intros ? ? [= <-] _ Hn. by destruct Hn.
      * intros i a b Ha Hb Hlt ->. destruct Hlt as [Hab Hn]. destruct Hn.
        transitivity first.1; [done|]. by eapply Hfirst.
    + destruct (scan_parameters fle ps time) as [p|] eqn:Hscan.
      * exists p. apply scan_parameters_Some_inv in Hscan as Hinv.
        destruct Hinv as (i & a & b & Ha & Hb & Hlt & Hle & ->).
        split_and!.
        -- done.
        -- exists a. split; [|done]. by eapply list_elem_of_lookup_2.
        -- intros ? [= <-] ?. done.
        -- intros i' a' b' Ha' Hb' Hlt' Hle'.
           pose proof (scan_parameters_at _ _ _ _ _ Hsorted Ha' Hb' Hlt' Hle').
           congruence.
        -- intros ? ? _ _ _ Hno. destruct (Hno i a b); done.
        -- intros i' a' b' Ha' Hb' Hlt' ->.
           pose proof (scan_parameters_at _ _ _ _ _ Hsorted Ha' Hb' Hlt'
                         (reflexivity _)).
           congruence.
      * exists lst.2. split_and!.
        -- done.
        -- exists lst. split; [|done].
           rewrite last_lookup in Hlast. by eapply list_elem_of_lookup_2.
        -- intros ? [= <-] ?. done.
        -- intros i a b Ha Hb Hlt Hle.
           pose proof (scan_parameters_at _ _ _ _ _ Hsorted Ha Hb Hlt Hle).
           congruence.
        -- intros ? ? _ [= <-] _ _. done.
        -- intros i a b Ha Hb Hlt ->.
           pose proof (scan_parameters_at _ _ _ _ _ Hsorted Ha Hb Hlt
                         (reflexivity _)).
           congruence.
Qed.

End parameters.

(** ** Indexing the series *)

Section indexing.
Context {F P : Type}.
Implicit Types (ts : @TimeSeries F P) (key : pykey).

Lemma getitem_length_other ts key n :
  py_len key = Ok n → n ≠ 1 → n ≠ 2 → __getitem__ ts key = Ok VNone.
Proof.
  intros Hlen H1 H2. unfold __getitem__. rewrite Hlen. simpl.
  by rewrite !decide_False.
Qed.

(** A string key of two characters is split into its characters, and the
    second one then indexes a list: that never succeeds. *)
Lemma getitem_two_characters ts (name : string) :
  String.length name = 2 → ∃ e, __getitem__ ts (KStr name) = Raise e.
Proof.
  intros Hlen. destruct name as [|c0 [|c1 [|? ?]]]; try done.
  unfold __getitem__. simpl.
  destruct (PyDict.get _ _) as [series|]; simpl; eauto.
Qed.

(** C10. A key whose length is neither 1 nor 2 makes [__getitem__] return
    [None]: no data and no exception. In particular [ts["phi"]] is [None].
    A bare string key yields a whole field series only when it is a single
    character; a pair [(field, step)] yields the snapshot
    [datasets[field][step]]. *)
Theorem getitem_returns_None_for_other_lengths ts :
  (∀ key n, py_len key = Ok n → n ≠ 1 → n ≠ 2 → __getitem__ ts key = Ok VNone)
  ∧ __getitem__ ts (KStr "phi") = Ok VNone
  ∧ (∀ (name : string) v,
       __getitem__ ts (KStr name) = Ok v →
       v = VNone ∧ String.length name ≠ 1 ∧ String.length name ≠ 2
       ∨ String.length name = 1
         ∧ ∃ series, v = VSeries series
                     ∧ PyDict.get (KStr name) (datasets ts) = Some series)
  ∧ (∀ (field : string) (step : Z),
       __getitem__ ts (KTuple [AStr field; AInt step]) =
         (series ← of_option KeyError (PyDict.get (KStr field) (datasets ts));
          VArray <$> py_index series step)).
Proof.
  split_and!.
  - intros key n. apply getitem_length_other.
  - by apply getitem_length_other with 3.
  - intros name v Hget.
    destruct (decide (String.length name = 1)) as [H1|H1].
    + right. split; [done|]. unfold __getitem__ in Hget. simpl in Hget.
      rewrite decide_True in Hget by done.
      destruct (PyDict.get _ _) as [series|]; simpl in Hget; [|done].
      injection Hget as <-. eauto.
    + destruct (decide (String.length name = 2)) as [H2|H2].
      * destruct (getitem_two_characters ts name H2) as [e He]. congruence.
      * left. rewrite (getitem_length_other ts (KStr name) (String.length name))
          in Hget by done.
        by injection Hget as <-.
  - done.
Qed.

End indexing.

(** ** Loading the archive *)

Section dict_more.
Context {K V : Type} `{EqDecision K}.
Implicit Types (d l : list (K * V)) (k : K) (v : V).

Lemma set_set k v v0 d : PyDict.set k v (PyDict.set k v0 d) = PyDict.set k v d.
Proof.
  induction d as [|[k' v'] d IH]; simpl.
  - by rewrite decide_True.
  - destruct (decide (k = k')) as [->|Hne]; simpl.
    + by rewrite decide_True.
    + rewrite decide_False by done. by rewrite IH.
Qed.

Lemma foldl_set_of_pairs l l' :
  foldl (fun d kv => PyDict.set kv.1 kv.2 d) (PyDict.of_pairs l) l' = PyDict.of_pairs (l ++ l').
Proof. unfold PyDict.of_pairs. by rewrite foldl_app. Qed.

Lemma elem_of_keys_set k k' v d :
  k' ∈ PyDict.keys (PyDict.set k v d) ↔ k' = k ∨ k' ∈ PyDict.keys d.
Proof.
  rewrite <-!PyDictFacts.get_Some_keys, PyDictFacts.get_set.
  destruct (decide (k' = k)) as [->|Hne]; [split; eauto|].
  split; [auto|]. by intros [?|?].
Qed.

(** [dict] of pairs [(h a, w a)] for an injective [h]. *)
Lemma get_of_pairs_fmap {A} (h : A → K) (w : A → V) (l : list A) a :
  Inj (=) (=) h → a ∈ l →
  PyDict.get (h a) (PyDict.of_pairs ((fun a => (h a, w a)) <$> l)) = Some (w a).
Proof.
  intros Hinj Hin.
  destruct (PyDict.get (h a) _) as [v|] eqn:Hget.
  - apply PyDictFacts.get_of_pairs_elem_of, list_elem_of_fmap in Hget
      as (a' & [= Hh ->] & _).
    by apply Hinj in Hh as ->.
  - apply PyDictFacts.get_None_keys in Hget. destruct Hget.
    apply PyDictFacts.keys_of_pairs. rewrite <-list_fmap_compose.
    apply list_elem_of_fmap. by exists a.
Qed.

End dict_more.

Section loading.
Context {F P : Type} `{EqDecision F} (fle : relation F) `{!RelDecision fle}.
Implicit Types (cps : list (@checkpoint F P)) (files : list (@field_file F))
  (sf : option (list string)) (field : string)
  (data : list (string * list (F * @ndarray F))).

Lemma ls_data_load_file sf (st : @load_state F P) ff :
  ls_data (load_file sf st ff) = data_step sf (ls_data st) ff.
Proof.
  unfold load_file, data_step. destruct (sought sf (ff_field ff)); [|done].
  cbn [ls_data]. unfold PyDict.mem.
  destruct (PyDict.get (ff_field ff) (ls_data st)) as [d|] eqn:Hget.
  - by rewrite Hget.
  - by rewrite PyDictFacts.get_set_eq, set_set.
Qed.

Lemma ls_data_load_files sf files : ∀ st : @load_state F P,
  ls_data (foldl (load_file sf) st files) = foldl (data_step sf) (ls_data st) files.
Proof.
  induction files as [|ff files IH]; intros st; simpl; [done|].
  by rewrite IH, ls_data_load_file.
Qed.

Lemma ls_data_load_checkpoints sf cps : ∀ st : @load_state F P,
  ls_data (foldl (load_checkpoint sf) st cps)
  = foldl (data_step sf) (ls_data st) (all_files cps).
Proof.
  unfold all_files.
  induction cps as [|cp cps IH]; intros st; simpl; [done|].
  rewrite IH. unfold load_checkpoint. rewrite ls_data_load_files. simpl.
  by rewrite foldl_app.
Qed.

Lemma entries_snoc sf files ff field :
  entries sf (files ++ [ff]) field
  = entries sf files field
    ++ (if decide (ff_field ff = field ∧ sought sf field = true) then ff_dsets ff else []).
Proof.
  unfold entries. rewrite filter_app, bind_app. f_equal.
  rewrite filter_cons, filter_nil. case_decide; simpl; [|done].
  by rewrite app_nil_r.
Qed.

(** [data[field]] holds the merged entries of [field]. *)
Lemma data_entries sf files field :
  default [] (PyDict.get field (foldl (data_step sf) [] files))
  = PyDict.of_pairs (entries sf files field).
Proof.
  induction files as [|ff files IH] using rev_ind; [done|].
  rewrite foldl_app, entries_snoc. simpl. unfold data_step at 1.
  destruct (sought sf (ff_field ff)) eqn:Hs.
  - rewrite PyDictFacts.get_set. destruct (decide (field = ff_field ff)) as [->|Hne].
    + rewrite decide_True by done. simpl.
      rewrite <-foldl_set_of_pairs. f_equal.
      revert IH. generalize (foldl (data_step sf) [] files). intros data <-. done.
    + rewrite decide_False by (intros [? _]; done). by rewrite app_nil_r.
  - rewrite decide_False; [by rewrite app_nil_r|]. intros [<- ?]. congruence.
Qed.

(** The keys of [data] are the sought fields that have a file. *)
Lemma data_keys sf files field :
  field ∈ PyDict.keys (foldl (data_step sf) [] files)
  ↔ sought sf field = true ∧ field ∈ ff_field <$> files.
Proof.
  induction files as [|ff files IH] using rev_ind.
  - simpl. split; [by intros ?%elem_of_nil|by intros [_ ?%elem_of_nil]].
  - rewrite foldl_app, fmap_app, elem_of_app. simpl. unfold data_step at 1.
    rewrite list_elem_of_singleton.
    destruct (sought sf (ff_field ff)) eqn:Hs.
    + rewrite elem_of_keys_set, IH. split.
      * intros [->|[? ?]]; auto.
      * intros [? [? | ->]]; auto.
    + rewrite IH. split; [intros [? ?]; auto|].
      intros [? [? | ->]]; [auto|congruence].
Qed.


Lemma collect_step_snd data l : ∀ acc,
  (foldl (collect_step fle data) acc l).2
  = foldl (fun d kv => PyDict.set kv.1 kv.2 d) acc.2
      ((fun ik : nat * string =>
          (KStr ik.2, (sorted_items fle (default [] (PyDict.get ik.2 data))).*2)) <$> l).
Proof.
  induction l as [|[i key] l IH]; intros acc; simpl; [done|].
  by rewrite IH.
Qed.


(** [self.datasets] when the loop is over. *)
Lemma collect_datasets data :
  (collect fle data).2
  = PyDict.of_pairs
      ((fun key => (KStr key, (sorted_items fle (default [] (PyDict.get key data))).*2))
         <$> PyDict.keys data).
Proof.
  unfold collect. rewrite collect_step_snd. unfold PyDict.of_pairs. simpl. f_equal.
  rewrite fmap_imap. rewrite <-imap_const. by apply imap_ext.
Qed.


Global Instance KStr_inj : Inj (=) (=) KStr.
Proof. by intros ? ? [= ->]. Qed.


Lemma load_timeseries_Ok cps sf :
  _load_timeseries fle true cps sf
  = Ok (mkLoaded
          (sorted_items fle
             (ls_parameters (foldl (load_checkpoint sf) (mkLoadState [] [] None None) cps)))
          (ls_nodes (foldl (load_checkpoint sf) (mkLoadState [] [] None None) cps))
          (ls_elems (foldl (load_checkpoint sf) (mkLoadState [] [] None None) cps))
          (collect fle (foldl (data_step sf) [] (all_files cps))).1
          (collect fle (foldl (data_step sf) [] (all_files cps))).2
          (PyDict.keys (collect fle (foldl (data_step sf) [] (all_files cps))).2)).
Proof.
  unfold _load_timeseries. rewrite ls_data_load_checkpoints. simpl.
  by destruct (collect fle _).
Qed.

Lemma loaded_fields cps sf k :
  k ∈ PyDict.keys (collect fle (foldl (data_step sf) [] (all_files cps))).2
  ↔ ∃ field, k = KStr field ∧ field ∈ PyDict.keys (foldl (data_step sf) [] (all_files cps)).
Proof.
  rewrite collect_datasets, PyDictFacts.keys_of_pairs, <-list_fmap_compose.
  rewrite list_elem_of_fmap. split.
  - intros (field & -> & ?). by exists field.
  - intros (field & -> & ?). by exists field.
Qed.


(** Sorted by key with pairwise different keys: the keys increase
    strictly. *)
Lemma strictly_sorted_keys `{!PartialOrder fle} {V} (L : list (F * V)) :
  StronglySorted (key_le fle) L → NoDup L.*1 → StronglySorted (flt fle) L.*1.
Proof.
  induction 1 as [|a L Hs IH Hall]; csimpl; intros Hnd; [constructor|].
  apply NoDup_cons in Hnd as [Hnin Hnd]. constructor; [auto|].
  apply Forall_fmap, Forall_forall. intros b Hb. simpl.
  pose proof (proj1 (Forall_forall _ _) Hall b Hb) as Hab. unfold key_le in Hab.
  split; [done|]. intros Hba. apply Hnin.
  replace a.1 with b.1 by (by apply (anti_symm fle)).
  apply list_elem_of_fmap. by exists b.
Qed.


End loading.

(** ** Geometry in time *)

Section geometry.
Context {F P : Type} `{EqDecision F}
        (fzero : F) (fmul fdiv : F → F → F) (mask_of : F → F)
        (contour_length : list (list F) → list (list nat) → list F → F)
        (assemble : @Function F → F).
Implicit Types (ts : @TimeSeries F P) (st : @geometry_state F).

Lemma set_areas_x_untouched n s step fs : ∀ d ax ax',
  set_areas_x assemble n d step fs ax = Ok ax' → s ≠ step →
  length ax' = length ax
  ∧ ∀ d', (ax' !! d') ≫= (fun a => a !! s) = (ax !! d') ≫= (fun a => a !! s).
Proof.
  induction n as [|n IH]; intros d ax ax' Hset Hne; simpl in Hset.
  - by injection Hset as <-.
  - bind_inv Hset. destruct (IH _ _ _ Hset Hne) as [Hlen Hlook].
    rewrite length_insert in Hlen. split; [done|]. intros d'. rewrite Hlook.
    destruct (ax !! d) as [row|] eqn:Hd; [|done]. simpl in E0. injection E0 as <-.
    destruct (decide (d' = d)) as [->|Hd'].
    + rewrite list_lookup_insert_eq by (by eapply lookup_lt_Some).
      rewrite Hd. simpl. by rewrite list_lookup_insert_ne.
    + by rewrite list_lookup_insert_ne.
Qed.

Lemma geometry_step_untouched ts st st' step s :
  geometry_step fmul mask_of contour_length assemble ts st step = Ok st' →
  s ≠ step → untouched s st st'.
Proof.
  intros Hstep Hne. unfold geometry_step in Hstep. bind_inv Hstep.
  injection Hstep as <-. unfold untouched. cbn [lengths areas areas_x].
  destruct (set_areas_x_untouched _ s _ _ _ _ _ E4 Hne) as [Hlen Hlook].
  split_and!; try done.
  - by rewrite list_lookup_insert_ne.
  - by rewrite list_lookup_insert_ne.
Qed.

Lemma geometry_steps_untouched ts steps s : ∀ st st',
  geometry_steps fmul mask_of contour_length assemble ts st steps = Ok st' →
  s ∉ steps → untouched s st st'.
Proof.
  induction steps as [|step steps IH]; intros st st' Hsteps Hnin; simpl in Hsteps.
  - by injection Hsteps as <-.
  - bind_inv Hsteps. apply not_elem_of_cons in Hnin as [Hne Hnin].
    destruct (IH _ _ Hsteps Hnin) as (Hl & Ha & Hn & Hx).
    destruct (geometry_step_untouched _ _ _ _ s E Hne) as (Hl' & Ha' & Hn' & Hx').
    split_and!; [congruence|congruence|congruence|]. intros d. by rewrite Hx, Hx'.
Qed.

Lemma ceil_div_lt (D step k : nat) :
  0 < step → k < (D + (step - 1)) / step ↔ k * step < D.
Proof.
  intros Hstep.
  pose proof (Nat.div_mod_eq (D + (step - 1)) step) as Hdm.
  pose proof (Nat.mod_upper_bound (D + (step - 1)) step ltac:(lia)) as Hr.
  set (q := (D + (step - 1)) / step) in *.
  set (r := (D + (step - 1)) mod step) in *.
  split; intros Hk; nia.
Qed.

(** The steps of a rank are those congruent to the rank modulo the number of
    ranks. *)
Lemma elem_of_py_range start stop step s :
  0 < step →
  s ∈ py_range start stop step ↔ start ≤ s < stop ∧ (s - start) mod step = 0.
Proof.
  intros Hstep. unfold py_range. rewrite decide_False by lia.
  rewrite list_elem_of_fmap. setoid_rewrite elem_of_seq. split.
  - intros (k & -> & _ & Hk). simpl in Hk. apply ceil_div_lt in Hk; [|done].
    split; [lia|].
    replace (start + k * step - start) with (k * step) by lia.
    apply Nat.Div0.mod_mul.
  - intros ([Hs1 Hs2] & Hmod). exists ((s - start) / step).
    pose proof (Nat.div_mod_eq (s - start) step) as Hdm.
    split; [lia|]. split; [lia|]. simpl. apply ceil_div_lt; [done|]. lia.
Qed.

(** C1 fails on the code. What rank 0 writes for a step that is not its
    own, whatever the number of ranks and whatever the kernels compute: the
    row of step [s] holds the initial zeros (and the quotient of two of
    them), not the quantities of step [s]. No statement of
    [geometry_in_time] brings in the arrays of another rank. *)
Theorem geometry_rank0_row_of_other_rank size new_function ts table s :
  0 < size →
  geometry_in_time fzero fmul fdiv mask_of contour_length assemble 0 size new_function ts
  = Ok (Some table) →
  s < __len__ ts → s mod size ≠ 0 →
  ∃ t, times ts !! s = Some t
       ∧ table !! s = Some [t; fzero; fzero; fdiv fzero fzero; fdiv fzero fzero].
Proof.
  intros Hsize Hrun Hs Hmod. unfold geometry_in_time in Hrun. bind_inv Hrun.
  rewrite decide_True in Hrun by done. bind_inv Hrun. injection Hrun as <-.
  rename a into st, a0 into ax0, a1 into ax1.
  apply geometry_steps_untouched with (s := s) in E as (Hl & Ha & Hn & Hx).
  2:{ rewrite elem_of_py_range by done. rewrite Nat.sub_0_r. lia. }
  cbn [lengths areas areas_x] in Hl, Ha, Hn, Hx.
  rewrite lookup_replicate_2 in Hl, Ha by done.
  rewrite length_replicate in Hn.
  assert (1 < dim ts) as Hdim.
  { destruct (areas_x st !! 1) eqn:H1; [|done]. apply lookup_lt_Some in H1. lia. }
  assert (ax0 !! s = Some fzero) as H0.
  { pose proof (Hx 0) as Hx0. destruct (areas_x st !! 0); [|done].
    injection E0 as ->. simpl in Hx0.
    rewrite lookup_replicate_2 in Hx0 by lia. simpl in Hx0.
    by rewrite lookup_replicate_2 in Hx0. }
  assert (ax1 !! s = Some fzero) as H1.
  { pose proof (Hx 1) as Hx1. destruct (areas_x st !! 1); [|done].
    injection E1 as ->. simpl in Hx1.
    rewrite lookup_replicate_2 in Hx1 by lia. simpl in Hx1.
    by rewrite lookup_replicate_2 in Hx1. }
  destruct (lookup_lt_is_Some_2 (times ts) s Hs) as [t Ht].
  exists t. split; [done|].
  rewrite !lookup_zip_with, Ht, Hl, Ha, H0, H1. done.
Qed.

End geometry.

(** ** The boundary registry *)

Section boundary_registry.
Context {F B : Type} `{EqDecision F} (fle : relation F) `{!RelDecision fle}.
Implicit Types (pass : list (string * list (@SubDomain F B)))
  (bl : list (list (string * list (@SubDomain F B))))
  (btm : list (string * (nat * nat))) (sd : list (@SubDomain F B * nat)).

Lemma add_cross_section_names key name extremum d keys nodes
    (e e' : list (string * list (@SubDomain F B))) :
  add_cross_section key name extremum d keys nodes e = Ok e' →
  e'.*1 = e.*1 ++ (if decide (key ∈ keys) then [name] else []).
Proof.
  unfold add_cross_section. case_decide.
  - intros Hadd. bind_inv Hadd. injection Hadd as <-. by rewrite fmap_app.
  - intros [= <-]. by rewrite app_nil_r.
Qed.

Lemma get_boundaries_list_passes boundaries pbc keys nodes bl :
  get_boundaries_list fle boundaries pbc keys nodes = Ok bl →
  ∃ e, e.*1 = cross_section_names keys
       ∧ bl = pass_one boundaries pbc :: (if decide (e = []) then [] else [e]).
Proof.
  unfold get_boundaries_list. intros Hget. bind_inv Hget.
  apply add_cross_section_names in E, E0, E1, E2.
  exists a2. split.
  - rewrite E2, E1, E0, E. unfold cross_section_names. by rewrite <-!app_assoc.
  - unfold pass_one, PyDict.items in *. destruct a2; simpl in Hget.
    + rewrite decide_True by done. by injection Hget as <-.
    + rewrite decide_False by done. by injection Hget as <-.
Qed.

Lemma mark_all_app boundary_list m sd :
  mark_all boundary_list m sd = sd ++ ((fun b => (b, m)) <$> boundary_list).
Proof.
  unfold mark_all. revert sd.
  induction boundary_list as [|b l IH]; intros sd; simpl.
  - by rewrite app_nil_r.
  - by rewrite IH, <-app_assoc.
Qed.

Lemma mark_pass_spec k pass : ∀ i sd btm,
  mark_pass k i pass sd btm
  = (sd ++ marks_from i pass,
     foldl (fun d kv => PyDict.set kv.1 kv.2 d) btm
       (imap (fun j nb => (nb.1, (i + j + 1, k))) pass)).
Proof.
  unfold marks_from.
  induction pass as [|[name boundary_list] pass IH]; intros i sd btm.
  - simpl. by rewrite app_nil_r.
  - cbn [mark_pass]. rewrite IH, mark_all_app, <-app_assoc. rewrite !imap_cons.
    cbn [mjoin list_join foldl fst snd].
    replace (i + 0 + 1) with (i + 1) by lia. f_equal.
    + do 3 f_equal. apply imap_ext. intros j nb _. unfold compose.
      apply list_fmap_ext. intros _ b _. f_equal. lia.
    + f_equal. apply imap_ext. intros j nb _. unfold compose. do 2 f_equal. lia.
Qed.

Lemma entries_from_cons k pass bl :
  entries_from k (pass :: bl)
  = imap (fun i nb => (nb.1, (i + 1, k))) pass ++ entries_from (S k) bl.
Proof.
  unfold entries_from. rewrite imap_cons. cbn [mjoin list_join]. f_equal.
  - apply imap_ext. intros i nb _. do 2 f_equal. lia.
  - f_equal. apply imap_ext. intros j p _. unfold compose.
    apply imap_ext. intros i nb _. do 2 f_equal. lia.
Qed.

Lemma mark_passes_spec bl : ∀ (sds : list (list (@SubDomain F B * nat))) k btm,
  k + length sds = length bl →
  mark_passes k sds bl btm
  = Ok (zip_with (fun sd pass => sd ++ marks_from 0 pass) sds (drop k bl),
        foldl (fun d kv => PyDict.set kv.1 kv.2 d) btm (entries_from k (drop k bl))).
Proof.
  induction sds as [|sd sds IH]; intros k btm Hlen; simpl in Hlen.
  - simpl. rewrite drop_ge by lia. done.
  - destruct (lookup_lt_is_Some_2 bl k ltac:(lia)) as [pass Hpass].
    cbn [mark_passes]. unfold marking_pass, mesh_function in *.
    rewrite Hpass. cbn [of_option mbind result_bind].
    rewrite mark_pass_spec, IH by lia. cbn [mbind result_bind fst snd].
    rewrite (drop_S _ _ _ Hpass), entries_from_cons, foldl_app. simpl.
    do 3 f_equal.
Qed.

Lemma of_pairs_NoDup {K V} `{EqDecision K} (l : list (K * V)) k v :
  NoDup l.*1 → (k, v) ∈ l → PyDict.get k (PyDict.of_pairs l) = Some v.
Proof.
  intros Hnd Hin.
  destruct (PyDict.get k (PyDict.of_pairs l)) as [v'|] eqn:Hget.
  - apply PyDictFacts.get_of_pairs_elem_of in Hget. f_equal.
    clear -Hnd Hin Hget. induction l as [|[k0 v0] l IH]; [by apply elem_of_nil in Hin|].
    csimpl in Hnd. apply NoDup_cons in Hnd as [Hnin Hnd].
    apply elem_of_cons in Hin as [[= -> ->]|Hin], Hget as [[= ->]|Hget]; try done.
    + destruct Hnin. apply list_elem_of_fmap. by exists (k0, v').
    + simplify_eq. destruct Hnin. apply list_elem_of_fmap. by exists (k0, v).
    + by apply IH.
  - apply PyDictFacts.get_None_keys in Hget. destruct Hget.
    apply PyDictFacts.keys_of_pairs, list_elem_of_fmap. by exists (k, v).
Qed.

Lemma entries_from_names bl k : (entries_from k bl).*1 = (mjoin bl).*1.
Proof.
  revert k. induction bl as [|pass bl IH]; intros k; [done|].
  rewrite entries_from_cons. cbn [mjoin list_join]. rewrite !fmap_app, IH. f_equal.
  rewrite fmap_imap. rewrite <-imap_const. by apply imap_ext.
Qed.

Lemma elem_of_entries_from bl : ∀ k j pass i nb,
  bl !! j = Some pass → pass !! i = Some nb →
  (nb.1, (i + 1, k + j)) ∈ entries_from k bl.
Proof.
  induction bl as [|p bl IH]; intros k j pass i nb Hj Hi; [done|].
  rewrite entries_from_cons, elem_of_app. destruct j as [|j]; simpl in Hj.
  - injection Hj as ->. left. rewrite Nat.add_0_r.
    apply (elem_of_lookup_imap_2 (fun i nb => (nb.1, (i + 1, k))) _ _ _ Hi).
  - right. replace (k + S j) with (S k + j) by lia. by eapply IH.
Qed.

(** C4, as the code has it. When [get_boundaries_list] returns, there are
    one or two passes: pass 1 is the named boundaries in the order of the
    mapping, after the periodic boundary if there is one; pass 2 exists
    exactly when a cross-section is requested, and lists the requested
    cross-sections in the fixed order left, right, top, bottom. Marking then
    succeeds, and in each pass the boundary at position [i] (from 0) has
    every predicate marked [i + 1] on the facet function of its pass; when
    no name occurs twice, [boundary_to_mark] maps its name to
    [(i + 1, pass)]. *)
Theorem boundary_registry_passes boundaries pbc keys nodes bl :
  get_boundaries_list fle boundaries pbc keys nodes = Ok bl →
  bl !! 0 = Some (pass_one boundaries pbc)
  ∧ (mjoin (drop 1 bl)).*1 = cross_section_names keys
  ∧ length bl = (if decide (cross_section_names keys = []) then 1 else 2)
  ∧ ∃ sds btm,
      get_boundary_to_mark ((fun _ => []) <$> bl) bl = Ok (sds, btm)
      ∧ (∀ k pass, bl !! k = Some pass → sds !! k = Some (marks_from 0 pass))
      ∧ (NoDup (mjoin bl).*1 →
         ∀ k pass i nb, bl !! k = Some pass → pass !! i = Some nb →
                        PyDict.get nb.1 btm = Some (i + 1, k)).
Proof.
  intros (e & He & ->)%get_boundaries_list_passes. split_and!.
  - done.
  - rewrite <-He. simpl. case_decide as Hnil; [by subst|].
    simpl. by rewrite app_nil_r.
  - rewrite <-He. by destruct e.
  - unfold get_boundary_to_mark. rewrite mark_passes_spec
      by (rewrite length_fmap; lia).
    eexists _, _. split; [done|]. rewrite drop_0. split.
    + intros k pass Hk. rewrite lookup_zip_with, list_lookup_fmap, Hk. done.
    + intros Hnd k pass i nb Hk Hi.
      apply (of_pairs_NoDup (entries_from 0 _)).
      * by rewrite entries_from_names.
      * by apply (elem_of_entries_from _ 0 k pass i nb).
Qed.

End boundary_registry.

(** ** Splitting and joining strings *)

Section strings.
Implicit Types (s w : string) (ws : list string) (sep c : ascii).

Lemma append_cons c s1 s2 : String c s1 +:+ s2 = String c (s1 +:+ s2).
Proof. done. Qed.

Lemma append_nil s : EmptyString +:+ s = s.
Proof. done. Qed.

Lemma append_assoc s1 s2 s3 : (s1 +:+ s2) +:+ s3 = s1 +:+ (s2 +:+ s3).
Proof.
  induction s1 as [|c s1 IH]; [done|]. by rewrite !append_cons, IH.
Qed.

Lemma contains_append c s1 s2 :
  PyStr.contains c (s1 +:+ s2) = PyStr.contains c s1 || PyStr.contains c s2.
Proof.
  induction s1 as [|c1 s1 IH]; [done|].
  rewrite append_cons. simpl. by rewrite IH, orb_assoc.
Qed.

(** A string without the separator is one piece. *)
Lemma split_one sep w : PyStr.contains sep w = false → PyStr.split sep w = [w].
Proof.
  induction w as [|c w IH]; simpl; [done|].
  intros [Hc Hw]%orb_false_elim. apply bool_decide_eq_false in Hc.
  rewrite decide_False by done. by rewrite IH.
Qed.

(** The first separator ends the first piece. *)
Lemma split_append sep w s :
  PyStr.contains sep w = false →
  PyStr.split sep (w +:+ String sep s) = w :: PyStr.split sep s.
Proof.
  induction w as [|c w IH].
  - intros _. rewrite append_nil. simpl. by rewrite decide_True.
  - rewrite append_cons. simpl. intros [Hc Hw]%orb_false_elim.
    apply bool_decide_eq_false in Hc. rewrite decide_False by done. by rewrite IH.
Qed.

(** No piece of a split contains the separator. *)
Lemma split_pieces sep s :
  Forall (fun w => PyStr.contains sep w = false) (PyStr.split sep s).
Proof.
  induction s as [|c s IH]; simpl; [by repeat constructor|].
  destruct (decide (c = sep)) as [->|Hne]; [by constructor|].
  destruct (PyStr.split sep s) as [|w ws].
  - repeat constructor. simpl. by rewrite bool_decide_eq_false_2.
  - apply Forall_cons in IH as [Hw Hws]. constructor; [|done].
    simpl. by rewrite Hw, bool_decide_eq_false_2.
Qed.

Lemma join_cons2 (sp : string) w w2 ws :
  PyStr.join sp (w :: w2 :: ws) = w +:+ sp +:+ PyStr.join sp (w2 :: ws).
Proof. done. Qed.

Lemma split_join sep ws :
  ws ≠ [] → Forall (fun w => PyStr.contains sep w = false) ws →
  PyStr.split sep (PyStr.join (PyStr.of_ascii sep) ws) = ws.
Proof.
  induction ws as [|w ws IH]; [done|]. intros _ [Hw Hws]%Forall_cons.
  destruct ws as [|w2 ws]; [by apply split_one|].
  rewrite join_cons2. unfold PyStr.of_ascii at 1. rewrite append_cons, append_nil.
  rewrite split_append by done. by rewrite IH.
Qed.

Lemma contains_join c sep ws :
  c ≠ sep → Forall (fun w => PyStr.contains c w = false) ws →
  PyStr.contains c (PyStr.join (PyStr.of_ascii sep) ws) = false.
Proof.
  intros Hne. induction ws as [|w ws IH]; [done|]. intros [Hw Hws]%Forall_cons.
  destruct ws as [|w2 ws]; [done|].
  rewrite join_cons2, !contains_append, Hw, IH by done.
  simpl. by rewrite bool_decide_eq_false_2.
Qed.

(** A text made of lines, each ended by a newline, splits into these lines
    and an empty piece after the last newline. *)
Lemma split_lines (lines : list string) :
  Forall (fun l => PyStr.contains PyStr.newline l = false) lines →
  PyStr.split PyStr.newline
    (foldr String.append EmptyString ((fun l => l +:+ PyStr.of_ascii PyStr.newline) <$> lines))
  = lines ++ [EmptyString].
Proof.
  induction 1 as [|l lines Hl _ IH]; [done|].
  csimpl. rewrite append_assoc. unfold PyStr.of_ascii at 1.
  rewrite append_cons, append_nil.
  rewrite split_append by done. by rewrite IH.
Qed.

End strings.

(** ** The flux tables *)

Section flux_table_facts.
Context {F E : Type} (of_int : Z → F) (fmt : F → string)
        (flux_integral : E → nat → nat → Z → F)
        (parse_float : string → option F) (to_int : F → option Z).
Implicit Types (X : list (list F)) (row : list F) (steps : list Z)
  (fluxes : list (string * E)).

Lemma clean_inv s :
  PyStr.clean s = true →
  PyStr.contains PyStr.space s = false ∧ PyStr.contains PyStr.newline s = false
  ∧ PyStr.starts_with PyStr.hash s = false ∧ s ≠ EmptyString.
Proof.
  unfold PyStr.clean. rewrite !andb_true_iff, !negb_true_iff.
  intros ((((? & ?) & ?) & ?) & Hne). apply bool_decide_eq_false in Hne. done.
Qed.

Lemma starts_with_append c s1 s2 :
  s1 ≠ EmptyString → PyStr.starts_with c (s1 +:+ s2) = PyStr.starts_with c s1.
Proof. by destruct s1. Qed.

Lemma row_line_facts row :
  row ≠ [] → Forall (good_cell fmt parse_float) row →
  PyStr.contains PyStr.newline ((row_line fmt) row) = false
  ∧ (row_line fmt) row ≠ EmptyString
  ∧ PyStr.starts_with PyStr.hash ((row_line fmt) row) = false
  ∧ mapM parse_float (PyStr.split PyStr.space ((row_line fmt) row)) = Some row.
Proof.
  intros Hne Hrow. unfold row_line. split_and!.
  - apply contains_join; [done|]. apply Forall_fmap.
    eapply Forall_impl; [exact Hrow|]. intros v [_ Hc]. by apply clean_inv in Hc as (_ & ? & _).
  - destruct row as [|v row]; [done|]. apply Forall_cons in Hrow as [[_ Hc] _].
    apply clean_inv in Hc as (_ & _ & _ & Hv). csimpl.
    destruct (fmt <$> row); [done|]. by destruct (fmt v).
  - destruct row as [|v row]; [done|]. apply Forall_cons in Hrow as [[_ Hc] _].
    apply clean_inv in Hc as (_ & _ & Hh & Hv). csimpl.
    destruct (fmt <$> row); [done|]. by rewrite starts_with_append.
  - rewrite split_join.
    + apply mapM_Some, Forall2_fmap_l, Forall_Forall2_diag.
      eapply Forall_impl; [exact Hrow|]. by intros v [? _].
    + by destruct row.
    + apply Forall_fmap. eapply Forall_impl; [exact Hrow|].
      intros v [_ Hc]. by apply clean_inv in Hc as (? & _).
Qed.

(** Reading a written table back with the space as separator gives the rows
    that were written, whatever the header. *)
Lemma savetxt_reparse X header :
  Forall (fun row => row ≠ [] ∧ Forall (good_cell fmt parse_float) row) X →
  reparse parse_float PyStr.space (savetxt fmt X header) = Some X.
Proof.
  intros HX. unfold reparse, savetxt.
  set (hs := PyStr.split PyStr.newline header).
  assert (((fun l => "# " +:+ l +:+ PyStr.of_ascii PyStr.newline) <$> hs)
          ++ ((fun row => PyStr.join (PyStr.of_ascii PyStr.space) (fmt <$> row)
                          +:+ PyStr.of_ascii PyStr.newline) <$> X)
          = (fun l => l +:+ PyStr.of_ascii PyStr.newline)
              <$> (((fun l => "# " +:+ l) <$> hs) ++ ((row_line fmt) <$> X))) as ->.
  { rewrite fmap_app, <-!list_fmap_compose. done. }
  rewrite split_lines.
  2:{ apply Forall_app. split.
      - apply Forall_fmap. eapply Forall_impl; [apply split_pieces|].
        intros l Hl. simpl. by rewrite contains_append, Hl.
      - apply Forall_fmap. eapply Forall_impl; [exact HX|].
        intros row [? ?]. by apply row_line_facts. }
  rewrite !filter_app.
  assert (filter (fun l => l ≠ EmptyString ∧ PyStr.starts_with PyStr.hash l = false)
            ((fun l => "# " +:+ l) <$> hs) = []) as ->.
  { induction hs as [|h hs IH]; [done|]. csimpl. rewrite filter_cons, IH.
    rewrite decide_False; [done|]. by intros [_ ?]. }
  assert (filter (fun l => l ≠ EmptyString ∧ PyStr.starts_with PyStr.hash l = false)
            ((row_line fmt) <$> X) = (row_line fmt) <$> X) as ->.
  { induction HX as [|row X [Hne Hrow] _ IH]; [done|]. csimpl.
    rewrite filter_cons, IH. rewrite decide_True; [done|].
    by destruct (row_line_facts row Hne Hrow) as (_ & ? & ? & _). }
  rewrite filter_cons, filter_nil, decide_False by (by intros [? _]).
  rewrite app_nil_r. simpl. apply mapM_Some, Forall2_fmap_l, Forall_Forall2_diag.
  eapply Forall_impl; [exact HX|]. intros row [Hne Hrow].
  by destruct (row_line_facts row Hne Hrow) as (_ & _ & _ & ?).
Qed.

Lemma foldr_min_same (n : nat) (ls : list nat) :
  Forall (fun m => m = n) ls → foldr Nat.min n ls = n.
Proof. induction 1 as [|m ls -> _ IH]; simpl; [done|]. rewrite IH. lia. Qed.

Lemma py_zip_spec (columns : list (list F)) (n : nat) :
  columns ≠ [] → Forall (fun c => length c = n) columns →
  py_zip columns = (fun i => omap (fun col : list F => col !! i) columns) <$> seq 0 n.
Proof.
  destruct columns as [|c cs]; [done|]. intros _ [Hc Hcs]%Forall_cons.
  unfold py_zip. rewrite foldr_min_same; [by rewrite Hc|].
  apply Forall_fmap. eapply Forall_impl; [exact Hcs|]. simpl. congruence.
Qed.

Lemma flux_columns fluxes mark k steps names columns :
  Forall2 (fun name col => flux_column flux_integral fluxes mark k steps name = Ok col)
          names columns →
  ∃ fl, Forall2 (fun name flux => PyDict.get name fluxes = Some flux) names fl
        ∧ columns = (fun flux => (fun step => flux_integral flux k mark step) <$> steps)
                      <$> fl.
Proof.
  induction 1 as [|name col names cols Hcol _ (fl & Hfl & ->)].
  - by exists [].
  - unfold flux_column in Hcol.
    destruct (PyDict.get name fluxes) as [flux|] eqn:Hflux; [|done].
    simpl in Hcol. injection Hcol as <-.
    exists (flux :: fl). split; [|done]. by constructor.
Qed.

Lemma omap_columns {A} (g : A → Z → F) steps (fl : list A) i step :
  steps !! i = Some step →
  omap (fun col : list F => col !! i) ((fun a => g a <$> steps) <$> fl)
  = (fun a => g a step) <$> fl.
Proof.
  intros Hstep. induction fl as [|a fl IH]; [done|].
  rewrite !fmap_cons. cbn [omap list_omap].
  rewrite list_lookup_fmap, Hstep. simpl. f_equal. apply IH.
Qed.

Lemma savedata_rows times fluxes steps mark_k X :
  savedata of_int flux_integral times fluxes steps mark_k = Ok X →
  Forall2 ((row_of of_int flux_integral) times fluxes mark_k) steps X.
Proof.
  unfold savedata. intros Hs. bind_inv Hs.
  rename a into t, a0 into columns.
  apply map_result_Ok_inv in E0, E1.
  apply flux_columns in E1 as (fl & Hfl & ->).
  apply Forall2_length in E0 as Ht.
  rewrite (py_zip_spec _ (length steps)) in Hs.
  2:{ done. }
  2:{ repeat constructor; [by rewrite length_fmap|done|].
      apply Forall_fmap, Forall_forall. intros flux _. simpl. by rewrite length_fmap. }
  injection Hs as <-.
  apply Forall2_same_length_lookup. split; [by rewrite length_fmap, length_seq|].
  intros i step row Hstep Hrow.
  rewrite list_lookup_fmap, lookup_seq_lt in Hrow by (by eapply lookup_lt_Some).
  injection Hrow as <-.
  destruct (Forall2_lookup_l _ _ _ _ _ E0 Hstep) as (ti & Hti & Hidx).
  exists ti, fl. split_and!; [done|done|].
  cbn [omap list_omap]. rewrite list_lookup_fmap, Hstep, Hti. simpl. do 2 f_equal.
  by apply (omap_columns (fun flux step => flux_integral flux mark_k.2 mark_k.1 step)).
Qed.

Lemma rows_step_indices times fluxes steps mark_k X :
  (∀ step, step ∈ steps → to_int (of_int step) = Some step) →
  Forall2 ((row_of of_int flux_integral) times fluxes mark_k) steps X →
  step_indices to_int X = Some steps.
Proof.
  intros Hint Hrows. apply mapM_Some. apply Forall2_flip.
  induction Hrows as [|step row steps X (t & fl & _ & _ & ->) _ IH]; constructor.
  - simpl. apply Hint, elem_of_cons; auto.
  - apply IH. intros s Hs. apply Hint, elem_of_cons; auto.
Qed.

(** C5, as the code has it. On rank 0, [method] writes one table per
    registered boundary, named after the boundary; row [i] of a table is the
    step [steps[i]], its time and one integral per flux name, the names in
    sorted order, which is also the order of the header. The rows are
    separated by single spaces: read back as space-separated numeric rows,
    a table gives the rows that were written, and its first column is the
    sequence of steps in the order they were iterated. *)
Theorem flux_tables_read_back times btm fluxes steps files :
  method of_int fmt flux_integral 0 times btm fluxes steps = Ok files →
  (∀ step, step ∈ steps → to_int (of_int step) = Some step) →
  (∀ bm X, bm ∈ btm → savedata of_int flux_integral times fluxes steps bm.2 = Ok X →
           Forall (Forall (good_cell fmt parse_float)) X) →
  Sorted String.le (flux_keys fluxes)
  ∧ flux_keys fluxes ≡ₚ PyDict.keys fluxes
  ∧ Forall2 (fun (bm : string * (nat * nat)) (file : string * string) =>
               ∃ X, file = ("flux_in_time_" +:+ bm.1 +:+ ".dat",
                            savetxt fmt X (flux_header fluxes))
                    ∧ Forall2 ((row_of of_int flux_integral) times fluxes bm.2) steps X
                    ∧ reparse parse_float PyStr.space file.2 = Some X
                    ∧ step_indices to_int X = Some steps)
            btm files.
Proof.
  intros Hm Hint Hgood. unfold method in Hm. bind_inv Hm.
  rewrite decide_True in Hm by done. injection Hm as <-.
  split_and!.
  - apply Sorted_merge_sort, _.
  - apply merge_sort_Permutation.
  - apply map_result_Ok_inv in E0. unfold PyDict.items in E0.
    apply Forall2_fmap_r.
    assert (Forall (fun bm : string * (nat * nat) =>
                      ∀ X, savedata of_int flux_integral times fluxes steps bm.2 = Ok X →
                           Forall (Forall (good_cell fmt parse_float)) X) btm) as Hin.
    { apply Forall_forall. intros bm Hbm X. by apply Hgood. }
    clear Hgood.
    induction E0 as [|bm bX bms tables HbX _ IH]; [constructor|].
    apply Forall_cons in Hin as [Hbm Hin]. constructor; [|by apply IH].
    destruct (savedata _ _ _ _ _ _) as [X|] eqn:HX; [|done].
    simpl in HbX. injection HbX as <-. simpl.
    pose proof (savedata_rows _ _ _ _ _ HX) as Hrows.
    exists X. split_and!; try done.
    + apply savetxt_reparse. pose proof (Hbm X eq_refl) as HgX.
      clear -Hrows HgX. induction Hrows as [|step row ? ? (t & fl & _ & _ & ->) _ IH].
      * constructor.
      * apply Forall_cons in HgX as [? ?]. constructor; [done|by apply IH].
    + by eapply rows_step_indices.
Qed.

End flux_table_facts.

(** ** The properties on the unit square *)

Section unit_square.
Import UnitSquare.

(** C1 on two ranks and two steps: rank 0 writes the zeros it started with
    in the row of step 1, although the quantities of step 1 are 4 and 2, as
    the run on one rank shows. *)
Lemma geometry_rank0_row_of_other_rank_witness :
  (∃ t, times ts0 !! 1 = Some t
        ∧ [[0; 4; 2; 0; 0]; [1; 0; 0; 0; 0]]%Z !! 1
          = Some [t; 0; 0; 0 `div` 0; 0 `div` 0]%Z)
  ∧ geometry 0 2 = Ok (Some [[0; 4; 2; 0; 0]; [1; 0; 0; 0; 0]]%Z)
  ∧ geometry 1 2 = Ok None
  ∧ geometry 0 1 = Ok (Some [[0; 4; 2; 0; 0]; [1; 4; 2; 0; 0]]%Z).
Proof.
  split_and!; [|vm_compute; reflexivity..].
  apply (geometry_rank0_row_of_other_rank (P := string) 0%Z Z.mul Z.div mask_of
           contour_length assemble 2 (Scalar [0; 0; 0; 0]%Z) ts0).
  - lia.
  - vm_compute. reflexivity.
  - vm_compute. lia.
  - vm_compute. discriminate.
Defined.

(** C2 on the unit square: [phi] at step 1 and [u] at step 0. *)
Lemma update_overwrites_witness :
  (∃ vec', update ts0 (Scalar [9; 9; 9; 9]%Z) "phi" 1 = Ok (ts0, Scalar vec')
           ∧ Forall2 (snapshot_value ts0 phi_t1 0) x0 vec'
           ∧ vec' = [1; 1; -1; -1]%Z)
  ∧ (∃ ts' subs', update ts0 (Vector [[9]; [9; 9]]%Z) "u" 0 = Ok (ts', Vector subs')
                  ∧ subs' = [[5; 1; 7; 3]; [6; 2; 8; 4]]%Z).
Proof.
  assert (∀ rows, length rows = 4 → same_discretization ts0 rows) as Hmesh.
  { intros rows Hrows. split_and!; [reflexivity| |exact Hrows].
    repeat constructor; compute_done. }
  split.
  - destruct (update_overwrites ts0 "phi" 1 [Arr2 phi_t0; Arr2 phi_t1] phi_t1)
      as [Hscalar _]; [reflexivity|lia|reflexivity|by apply Hmesh|].
    destruct Hscalar as (vec' & Hval & Hupd); [done|by repeat constructor|].
    exists vec'. pose proof (Hupd [9; 9; 9; 9]%Z eq_refl) as H9.
    split_and!; [done|done|]. vm_compute in H9. by injection H9 as <-.
  - destruct (update_overwrites ts0 "u" 0 [Arr2 u_t0; Arr2 u_t1] u_t0)
      as [_ Hvector]; [reflexivity|lia|reflexivity|by apply Hmesh|].
    destruct Hvector as (subs' & Hlen & Hval & Hupd);
      [done|repeat constructor; simpl; lia|by exists [0; 0; 0; 0]%Z|].
    destruct (Hupd [[9]; [9; 9]]%Z eq_refl) as (ts' & Hts' & _).
    exists ts', subs'. split; [done|]. vm_compute in Hts'. by injection Hts' as _ <-.
Defined.

(** C7 on a function space with a degree of freedom at [(5,5)]. *)
Lemma missing_coordinate_aborts_witness :
  (∃ e, set_val ts_mismatch (Scalar [9; 9]%Z) (Arr2 phi_t1) = Raise e
        ∧ (e = KeyError ∨ e = IndexError))
  ∧ (0 < dim ts_mismatch →
     ∃ e, update ts_mismatch (Scalar [9; 9]%Z) "phi" 1 = Raise e
          ∧ (e = KeyError ∨ e = IndexError)).
Proof.
  apply (missing_coordinate_aborts ts_mismatch (Scalar [9; 9]%Z) (Arr2 phi_t1)
           "phi" 1 [5; 5]%Z).
  - compute_done.
  - vm_compute. reflexivity.
Defined.

(** C9 at the exact start time of the second checkpoint. *)
Lemma get_parameters_spec_witness :
  get_parameters Z.le [(0, "a"); (10, "b"); (20, "c")]%Z 10%Z = Ok "a"%string.
Proof.
  destruct (get_parameters_spec Z.le [(0, "a"); (10, "b"); (20, "c")]%Z 10%Z)
    as (p & Hp & _ & _ & _ & _ & Hstart).
  - done.
  - repeat constructor; unfold key_le; simpl; lia.
  - rewrite Hp. f_equal.
    apply (Hstart 0 (0%Z, "a"%string) (10%Z, "b"%string)); try reflexivity.
    split; simpl; lia.
Defined.


(** C4 for the request [top,left]. *)
Lemma boundary_registry_passes_witness :
  get_boundaries_list Z.le boundaries0 pbc0 ["top"; "left"]%string nodes0 = Ok passes0
  ∧ length passes0 = 2
  ∧ (mjoin (drop 1 passes0)).*1 = ["extra_left"; "extra_top"]%string
  ∧ ∃ sds btm, get_boundary_to_mark ((fun _ => []) <$> passes0) passes0 = Ok (sds, btm)
               ∧ PyDict.get "inlet"%string btm = Some (3, 0)
               ∧ PyDict.get "extra_top"%string btm = Some (2, 1).
Proof.
  assert (get_boundaries_list Z.le boundaries0 pbc0 ["top"; "left"]%string nodes0
          = Ok passes0) as Hget by (vm_compute; reflexivity).
  destruct (boundary_registry_passes Z.le boundaries0 pbc0 _ nodes0 passes0 Hget)
    as (_ & Hnames & Hlen & sds & btm & Hmark & _ & Hbtm).
  split_and!; [done|done|done|].
  exists sds, btm. split_and!; [done| |].
  - apply (Hbtm ltac:(compute_done) 0
             (("periodic"%string, [Problem "PeriodicBoundary"%string]) :: boundaries0) 2
             ("inlet"%string, [Problem "Left"%string; Problem "LeftCorner"%string]));
      reflexivity.
  - apply (Hbtm ltac:(compute_done) 1
             [("extra_left"%string, [CrossSection 0%Z 0]);
              ("extra_top"%string, [CrossSection 1%Z 1])] 1
             ("extra_top"%string, [CrossSection 1%Z 1]));
      reflexivity.
Defined.

(** C4 as stated fails on the request [top,left]: the names were supplied in
    the order top, left, which would give [extra_top] the marker 1 and
    [extra_left] the marker 2; the registry gives [extra_left] the marker 1
    and [extra_top] the marker 2 (both in pass 1, counting passes from 0). *)
Lemma cross_sections_not_in_supplied_order :
  ∃ btm ds, fetch_boundaries Z.le boundaries0 pbc0 "top,left" nodes0 = Ok (btm, ds)
            ∧ PyDict.get "extra_top"%string btm = Some (2, 1)
            ∧ PyDict.get "extra_left"%string btm = Some (1, 1)
            ∧ marks_in_supplied_order ["extra_top"; "extra_left"]%string
              = [("extra_top"%string, 1); ("extra_left"%string, 2)].
Proof. eexists _, _. split_and!; vm_compute; reflexivity. Qed.

(** C5 on two boundaries, three fluxes and the steps 1, 0. *)
Lemma flux_tables_read_back_witness :
  flux_files [1; 0]%Z = Ok files0
  ∧ flux_keys fluxes0 = ["Mass"; "Phase"; "Velocity"]%string
  ∧ Forall2 (fun (bm : string * (nat * nat)) (file : string * string) =>
               ∃ X, file = ("flux_in_time_" +:+ bm.1 +:+ ".dat",
                            savetxt IntFloat.fmt X (flux_header fluxes0))
                    ∧ Forall2 (row_of (fun n : Z => n) flux_integral0 [0; 1]%Z fluxes0 bm.2)
                              [1; 0]%Z X
                    ∧ reparse IntFloat.parse PyStr.space file.2 = Some X
                    ∧ step_indices Some X = Some [1; 0]%Z)
            boundary_to_mark0 files0.
Proof.
  assert (flux_files [1; 0]%Z = Ok files0) as Hfiles by (vm_compute; reflexivity).
  split_and!; [done|vm_compute; reflexivity|].
  apply (flux_tables_read_back (fun n : Z => n) IntFloat.fmt flux_integral0
           IntFloat.parse Some [0; 1]%Z boundary_to_mark0 fluxes0 [1; 0]%Z files0).
  - exact Hfiles.
  - done.
  - intros bm X Hbm HX. unfold boundary_to_mark0 in Hbm.
    apply elem_of_cons in Hbm as [->|Hbm];
      [|apply list_elem_of_singleton in Hbm as ->];
      vm_compute in HX; injection HX as <-;
      repeat constructor; vm_compute; reflexivity.
Defined.

(** C5 as stated fails on these tables: read as tab-separated numeric rows
    they give no rows at all, because a row is one piece that is not a
    number; read as space-separated rows they give the steps 1, 0. *)
Lemma flux_tables_are_not_tab_separated :
  flux_files [1; 0]%Z = Ok files0
  ∧ (fun file : string * string =>
       reparse IntFloat.parse PyStr.tab file.2 ≫= step_indices Some) <$> files0
    = [None; None]
  ∧ (fun file : string * string =>
       reparse IntFloat.parse PyStr.space file.2 ≫= step_indices Some) <$> files0
    = [Some [1; 0]%Z; Some [1; 0]%Z].
Proof. split_and!; vm_compute; reflexivity. Qed.

End unit_square.

(** ** File names *)

Section file_names.
Implicit Types (s sep text prefix suffix mid w : string) (c : ascii).

Lemma py_index_first {A} (a : A) l : py_index (a :: l) 0 = Ok a.
Proof. reflexivity. Qed.

Lemma py_index_second {A} (a b : A) l : py_index (a :: b :: l) 1 = Ok b.
Proof. reflexivity. Qed.

Lemma text_append_cons c s1 s2 : String c s1 +:+ s2 = String c (s1 +:+ s2).
Proof. reflexivity. Qed.

Lemma starts_with_append_self sep s : PyText.starts_with sep (sep +:+ s) = true.
Proof.
  induction sep as [|c sep IH]; [by destruct s|].
  rewrite text_append_cons. cbn [PyText.starts_with].
  by rewrite bool_decide_true, IH.
Qed.

Lemma starts_with_empty sep : PyText.starts_with sep EmptyString = true → sep = EmptyString.
Proof. by destruct sep. Qed.

Lemma split_from_cons sep c s :
  PyText.split_from sep 0 (String c s)
  = if PyText.starts_with sep (String c s)
    then EmptyString :: PyText.split_from sep (String.length sep - 1) s
    else match PyText.split_from sep 0 s with
         | [] => [String c EmptyString]
         | w :: ws => String c w :: ws
         end.
Proof. reflexivity. Qed.

Lemma split_from_skip sep w s :
  PyText.split_from sep (String.length w) (w +:+ s) = PyText.split_from sep 0 s.
Proof. induction w as [|c w IH]; [done|]. rewrite text_append_cons. exact IH. Qed.

Lemma split_from_nonempty sep : ∀ s k, PyText.split_from sep k s ≠ [].
Proof.
  induction s as [|c s IH]; intros k; [by destruct k|].
  destruct k as [|k]; [|apply IH].
  rewrite split_from_cons. destruct (PyText.starts_with sep (String c s)); [done|].
  by destruct (PyText.split_from sep 0 s).
Qed.

Lemma first_occurrence_cons sep c s :
  first_occurrence sep (String c s)
  = if PyText.starts_with sep (String c s) then Some 0 else S <$> first_occurrence sep s.
Proof. reflexivity. Qed.

Lemma first_occurrence_empty text : first_occurrence EmptyString text = Some 0.
Proof. by destruct text. Qed.

Lemma split_from_no_occurrence sep : ∀ s,
  first_occurrence sep s = None → PyText.split_from sep 0 s = [s].
Proof.
  induction s as [|c s IH]; [done|].
  rewrite first_occurrence_cons, split_from_cons.
  destruct (PyText.starts_with sep (String c s)); [done|].
  destruct (first_occurrence sep s); [done|]. intros _. by rewrite IH.
Qed.

Lemma split_from_first_occurrence sep b : ∀ a,
  first_occurrence sep (a +:+ b) = Some (String.length a) →
  ∃ ws, PyText.split_from sep 0 (a +:+ b) = a :: ws.
Proof.
  induction a as [|c a IH].
  - change (EmptyString +:+ b) with b. destruct b as [|c b]; [by exists []|].
    rewrite first_occurrence_cons, split_from_cons.
    destruct (PyText.starts_with sep (String c b)); [by eexists|].
    by destruct (first_occurrence sep b).
  - rewrite text_append_cons, first_occurrence_cons, split_from_cons.
    destruct (PyText.starts_with sep (String c (a +:+ b))); [done|].
    destruct (first_occurrence sep (a +:+ b)) as [i|] eqn:Hi; [|done].
    intros [= ->]. destruct (IH eq_refl) as [ws ->]. by eexists.
Qed.

Lemma split_from_two_pieces sep : ∀ s,
  sep ≠ EmptyString → is_Some (first_occurrence sep s) →
  ∃ w w2 ws, PyText.split_from sep 0 s = w :: w2 :: ws.
Proof.
  intros s Hsep. induction s as [|c s IH].
  - intros [i Hi]. cbn in Hi.
    destruct (PyText.starts_with sep EmptyString) eqn:Hs; [|done].
    by apply starts_with_empty in Hs.
  - rewrite first_occurrence_cons, split_from_cons.
    destruct (PyText.starts_with sep (String c s)).
    + intros _.
      destruct (PyText.split_from sep (String.length sep - 1) s) as [|w ws] eqn:Hw;
        [by apply split_from_nonempty in Hw|by eexists _, _, _].
    + intros [i Hi]. destruct (first_occurrence sep s); [|done].
      destruct IH as (w & w2 & ws & ->); [done|]. by eexists _, _, _.
Qed.

(** X1 (get_middle): for a text that is a non-empty prefix, a middle part and
    a non-empty suffix, where the prefix does not occur again after itself
    and the suffix does not begin before the end of the middle part,
    [get_middle] gives back the middle part. *)
Theorem get_middle_round_trip prefix mid suffix :
  prefix ≠ EmptyString → suffix ≠ EmptyString →
  first_occurrence prefix (mid +:+ suffix) = None →
  first_occurrence suffix (mid +:+ suffix) = Some (String.length mid) →
  get_middle (prefix +:+ mid +:+ suffix) prefix suffix = Ok mid.
Proof.
  intros Hp Hs Hno Hat. unfold get_middle, PyText.split.
  rewrite !decide_False by done.
  destruct prefix as [|c prefix]; [done|].
  rewrite text_append_cons, split_from_cons, <- text_append_cons,
    starts_with_append_self.
  cbn [String.length]. rewrite Nat.sub_1_r. cbn [Nat.pred].
  rewrite split_from_skip, (split_from_no_occurrence _ _ Hno).
  destruct (split_from_first_occurrence _ _ _ Hat) as [ws Hws].
  cbn [mbind result_bind]. rewrite py_index_second. cbn [mbind result_bind].
  rewrite decide_False by done. cbn [mbind result_bind]. by rewrite Hws.
Qed.

Lemma get_middle_round_trip_witness :
  get_middle "res/Settings/parameters_from_tstep_120.dat"
    "res/Settings/parameters_from_tstep_" ".dat" = Ok "120"%string.
Proof.
  apply (get_middle_round_trip "res/Settings/parameters_from_tstep_" "120" ".dat");
    [done|done|reflexivity|reflexivity].
Defined.

(** X2 (get_middle): [get_middle] returns a value exactly when neither
    separator is empty and the prefix occurs in the text; an empty prefix is
    a [ValueError], a prefix that does not occur an [IndexError]. *)
Theorem get_middle_succeeds_iff text prefix suffix :
  ((∃ m, get_middle text prefix suffix = Ok m)
   ↔ prefix ≠ EmptyString ∧ suffix ≠ EmptyString
     ∧ is_Some (first_occurrence prefix text))
  ∧ get_middle text EmptyString suffix = Raise ValueError
  ∧ (first_occurrence prefix text = None →
     get_middle text prefix suffix = Raise IndexError).
Proof.
  split; [|split; [done|]].
  - unfold get_middle, PyText.split. split.
    + intros [m Hm]. destruct (decide (prefix = EmptyString)) as [->|Hp]; [done|].
      destruct (first_occurrence prefix text) as [i|] eqn:Hi.
      * split; [done|]. split; [|by eexists].
        intros ->. cbn in Hm.
        destruct (py_index (PyText.split_from prefix 0 text) 1); done.
      * rewrite (split_from_no_occurrence _ _ Hi) in Hm. done.
    + intros (Hp & Hs & Hocc). rewrite !decide_False by done.
      destruct (split_from_two_pieces prefix text Hp Hocc) as (w & w2 & ws & ->).
      cbn [mbind result_bind]. rewrite py_index_second. cbn [mbind result_bind].
      destruct (PyText.split_from suffix 0 w2) as [|m ms] eqn:Hm;
        [by apply split_from_nonempty in Hm|].
      rewrite decide_False by done. by exists m.
  - intros Hno. unfold get_middle, PyText.split.
    destruct (decide (prefix = EmptyString)) as [->|Hp];
      [by rewrite first_occurrence_empty in Hno|].
    by rewrite (split_from_no_occurrence _ _ Hno).
Qed.

End file_names.

(** ** The coordinate index, the time axis and added fields *)

Section series_access.
Context {F P : Type} `{EqDecision F}.
Implicit Types (ts : @TimeSeries F P) (l : list (list F)) (c : list F).

Lemma xdict_of_nodes_snoc l c :
  xdict_of_nodes (l ++ [c]) = PyDict.set c (length l) (xdict_of_nodes l).
Proof.
  unfold xdict_of_nodes. rewrite imap_app. cbn [imap]. rewrite Nat.add_0_r.
  apply PyDictFacts.of_pairs_snoc.
Qed.

Lemma xdict_of_nodes_last l c i :
  l !! i = Some c → (∀ j, i < j → l !! j ≠ Some c) →
  PyDict.get c (xdict_of_nodes l) = Some i.
Proof.
  induction l as [|c' l IH] using rev_ind; [done|]. intros Hi Hlast.
  rewrite xdict_of_nodes_snoc, PyDictFacts.get_set.
  destruct (decide (i = length l)) as [->|Hne].
  - rewrite lookup_app_r, Nat.sub_diag in Hi by done. injection Hi as ->.
    by rewrite decide_True.
  - assert (i < length l) as Hlt.
    { apply lookup_lt_Some in Hi. rewrite length_app in Hi. cbn in Hi. lia. }
    rewrite lookup_app_l in Hi by done.
    rewrite decide_False.
    + apply IH; [done|]. intros j Hj Hc. apply (Hlast j Hj).
      by apply lookup_app_l_Some.
    + intros ->. apply (Hlast (length l) Hlt).
      by rewrite lookup_app_r, Nat.sub_diag.
Qed.

(** X3 (_make_xdict): on every rank, looking a coordinate up in the index
    gives the position of its last occurrence among the nodes of rank 0; in
    particular, for nodes that are pairwise different, it gives the position
    of the node. *)
Theorem xdict_lookup_last_index (nds : nat → list (list F)) (rank : nat) c i :
  nds 0 !! i = Some c → (∀ j, i < j → nds 0 !! j ≠ Some c) →
  xdict_lookup (_make_xdict nds rank) c = Ok i.
Proof.
  intros Hi Hlast. unfold _make_xdict, bcast, xdict_lookup, prep.
  rewrite decide_True by done. by rewrite (xdict_of_nodes_last _ _ _ Hi Hlast).
Qed.

Lemma py_index_is_Ok {A} (l : list A) (i : Z) :
  (∃ a, py_index l i = Ok a) ↔ (- Z.of_nat (length l) ≤ i < Z.of_nat (length l))%Z.
Proof.
  unfold py_index. destruct (decide (0 ≤ i)%Z) as [Hi|Hi].
  - destruct (l !! Z.to_nat i) as [a|] eqn:Ha; cbn.
    + apply lookup_lt_Some in Ha. split; [lia|by eexists].
    + apply lookup_ge_None in Ha. split; [by intros [? ?]|lia].
  - destruct (decide (- Z.of_nat (length l) ≤ i)%Z) as [Hlo|Hlo].
    + destruct (l !! Z.to_nat (Z.of_nat (length l) + i)) as [a|] eqn:Ha; cbn.
      * split; [lia|by eexists].
      * apply lookup_ge_None in Ha. lia.
    + split; [by intros [? ?]|lia].
Qed.



Lemma getitem_field_step ts (field : string) (step : Z) :
  __getitem__ ts (KTuple [AStr field; AInt step])
  = (series ← of_option KeyError (PyDict.get (KStr field) (datasets ts));
     VArray <$> py_index series step).
Proof. reflexivity. Qed.

(** X5 (add_field): a field that was added can be read back, snapshot by
    snapshot (and as a whole when its name is one character long); it is
    among the fields of the series, and the time axis keeps its length
    whatever the number of snapshots added. *)
Theorem add_field_getitem ts (field : string) (dsets : list (@ndarray F)) (step : Z) :
  __getitem__ (add_field ts field dsets) (KTuple [AStr field; AInt step])
  = VArray <$> py_index dsets step
  ∧ KStr field ∈ fields (add_field ts field dsets)
  ∧ (String.length field = 1 →
     __getitem__ (add_field ts field dsets) (KStr field) = Ok (VSeries dsets))
  ∧ __len__ (add_field ts field dsets) = __len__ ts.
Proof.
  split; [|split; [|split]].
  - rewrite getitem_field_step. cbn [add_field __setitem__ with_datasets datasets].
    by rewrite PyDictFacts.get_set_eq.
  - cbn [add_field __setitem__ with_datasets datasets fields].
    apply elem_of_keys_set. by left.
  - intros Hlen. unfold __getitem__. cbn [py_len KStr mbind result_bind].
    rewrite Hlen. rewrite decide_True by done.
    cbn [add_field __setitem__ with_datasets datasets].
    by rewrite PyDictFacts.get_set_eq.
  - reflexivity.
Qed.

(** X6 (add_field): adding a field leaves the snapshots of every other field
    as they were, and the fields of the series become the keys of the
    datasets: the new name and every key there was before, whether or not
    it was among the fields. *)
Theorem add_field_other_fields ts (field : string) (dsets : list (@ndarray F)) :
  (∀ (other : string) (step : Z), other ≠ field →
     __getitem__ (add_field ts field dsets) (KTuple [AStr other; AInt step])
     = __getitem__ ts (KTuple [AStr other; AInt step]))
  ∧ (∀ key, key ∈ fields (add_field ts field dsets)
            ↔ key = KStr field ∨ key ∈ PyDict.keys (datasets ts)).
Proof.
  split.
  - intros other step Hne. rewrite !getitem_field_step.
    cbn [add_field __setitem__ with_datasets datasets].
    rewrite PyDictFacts.get_set_ne; [done|]. intros [= ?]. done.
  - intros key. cbn [add_field __setitem__ with_datasets datasets fields].
    apply elem_of_keys_set.
Qed.

End series_access.

Lemma xdict_lookup_last_index_witness :
  xdict_lookup (_make_xdict (fun _ => [[0; 0]; [1; 0]; [0; 0]; [1; 1]]%Z) 3) [0; 0]%Z
  = Ok 2.
Proof.
  apply (xdict_lookup_last_index (fun _ => [[0; 0]; [1; 0]; [0; 0]; [1; 1]]%Z) 3
           [0; 0]%Z 2); [reflexivity|].
  intros j Hj. destruct j as [|[|[|[|j]]]]; [lia|lia|lia|discriminate|discriminate].
Defined.

(** ** The steps of each process *)

Section round_robin.

(** X7 (geometry_in_time): the loop [range(rank, len(ts), size)] hands every
    step of the series to exactly one of the [size] processes, the one whose
    rank is the step modulo [size]. *)
Theorem steps_round_robin (size n s rank : nat) :
  0 < size → rank < size → s < n →
  s ∈ py_range rank n size ↔ rank = s mod size.
Proof.
  intros Hsize Hrank Hs. rewrite elem_of_py_range by done. split.
  - intros [[Hle _] Hmod].
    apply (Nat.mod_unique s size ((s - rank) / size)); [done|].
    pose proof (Nat.Div0.div_mod (s - rank) size) as Hdm. lia.
  - intros ->. pose proof (Nat.Div0.mod_le s size) as Hle.
    split; [lia|].
    pose proof (Nat.Div0.div_mod s size) as Hdm.
    replace (s - s mod size) with (s / size * size) by lia.
    apply Nat.Div0.mod_mul.
Qed.

Lemma steps_round_robin_witness : 5 ∈ py_range 2 7 3 ↔ 2 = 5 mod 3.
Proof. apply (steps_round_robin 3 7 5 2); lia. Defined.

End round_robin.

(** ** Single parameters *)

Section single_parameter.
Context {F V : Type} (fle : relation F) `{!RelDecision fle}.
Implicit Types (ps : list (F * list (string * V))) (time : F) (key : string).

Lemma get_parameters_nonempty {Q} (qs : list (F * Q)) time :
  qs ≠ [] → ∃ rec, rec ∈ qs ∧ get_parameters fle qs time = Ok rec.2.
Proof.
  intros Hne. destruct qs as [|a qs]; [done|]. unfold get_parameters.
  rewrite py_index_first. destruct (decide (length (a :: qs) = 1)).
  { exists a. split; [by left|done]. }
  cbn [mbind result_bind]. destruct (decide (fle time a.1)).
  { exists a. split; [by left|done]. }
  destruct (scan_parameters fle (a :: qs) time) as [p|] eqn:Hscan.
  - apply scan_parameters_Some_inv in Hscan as (i & r & _ & Hi & _ & _ & _ & ->).
    exists r. split; [by eapply list_elem_of_lookup_2|done].
  - rewrite py_index_last.
    destruct (last (a :: qs)) as [r|] eqn:Hlast.
    + exists r. split; [|done]. apply last_Some in Hlast as [l' ->].
      apply elem_of_app. right. by left.
    + by apply last_None in Hlast.
Qed.

(** X8 (get_parameter): on a series with no parameter record
    [get_parameter] raises [IndexError]; otherwise it never raises: it takes
    the record [get_parameters] selects for the time and returns the value
    stored under the key there, or the default when that one record has no
    such key. *)
Theorem get_parameter_default ps key time (default_value : V) :
  get_parameter fle [] key time default_value = Raise IndexError
  ∧ (ps ≠ [] →
     ∃ rec, rec ∈ ps ∧ get_parameters fle ps time = Ok rec.2
            ∧ get_parameter fle ps key time default_value
              = Ok (match PyDict.get key rec.2 with
                    | Some v => v
                    | None => default_value
                    end)).
Proof.
  split; [done|]. intros Hne.
  destruct (get_parameters_nonempty ps time Hne) as (rec & Hin & Hrec).
  exists rec. split; [done|]. split; [done|].
  unfold get_parameter. rewrite Hrec. cbn [mbind result_bind].
  by destruct (PyDict.get key rec.2).
Qed.

End single_parameter.

(** ** More about loading *)

Section loading_more.
Context {F P : Type} `{EqDecision F} (fle : relation F) `{!RelDecision fle}.
Implicit Types (cps : list (@checkpoint F P)) (files : list (@field_file F))
  (sf : option (list string)) (field : string) (st : @load_state F P).

Lemma ls_parameters_load_files sf files : ∀ st,
  ls_parameters (foldl (load_file sf) st files) = ls_parameters st.
Proof.
  induction files as [|ff files IH]; intros st; [done|].
  cbn [foldl]. rewrite IH. unfold load_file. by destruct (sought sf (ff_field ff)).
Qed.

Lemma ls_parameters_load_checkpoints sf cps : ∀ st,
  ls_parameters (foldl (load_checkpoint sf) st cps)
  = foldl (fun d kv => PyDict.set kv.1 kv.2 d) (ls_parameters st)
      ((fun cp => (t_0 cp, cp_parameters cp)) <$> cps).
Proof.
  induction cps as [|cp cps IH]; intros st; [done|].
  cbn [foldl fmap list_fmap]. rewrite IH. unfold load_checkpoint.
  by rewrite ls_parameters_load_files.
Qed.

Lemma loaded_parameters sf cps :
  ls_parameters (foldl (load_checkpoint sf) (mkLoadState [] [] None None) cps)
  = PyDict.of_pairs ((fun cp => (t_0 cp, cp_parameters cp)) <$> cps).
Proof. by rewrite ls_parameters_load_checkpoints. Qed.

Lemma get_of_pairs_last {K V} `{EqDecision K} (l : list (K * V)) k v :
  PyDict.get k (PyDict.of_pairs l) = Some v →
  ∃ i, l !! i = Some (k, v) ∧ ∀ j kv, i < j → l !! j = Some kv → kv.1 ≠ k.
Proof.
  induction l as [|[k' v'] l IH] using rev_ind; [done|].
  rewrite PyDictFacts.of_pairs_snoc, PyDictFacts.get_set.
  destruct (decide (k = k')) as [<-|Hne].
  - intros [= ->]. exists (length l). split.
    + by rewrite lookup_app_r, Nat.sub_diag.
    + intros j kv Hj Hkv. apply lookup_lt_Some in Hkv.
      rewrite length_app in Hkv. cbn in Hkv. lia.
  - intros (i & Hi & Hlast)%IH. exists i. split; [by apply lookup_app_l_Some|].
    intros j kv Hj Hkv. destruct (decide (j < length l)) as [Hlt|Hge].
    + rewrite lookup_app_l in Hkv by done. by eapply Hlast.
    + rewrite lookup_app_r in Hkv by lia.
      destruct (j - length l) as [|n]; [|by destruct n].
      injection Hkv as <-. cbn. congruence.
Qed.

(** X9 (_load_timeseries): the parameter records of a loaded series are
    sorted on their start times, which increase strictly; every checkpoint's
    start time has a record, and the record of a start time carries the
    parameters of the last checkpoint read with that start time. With at
    least one checkpoint, [get_parameters] finds a record for every time. *)
Theorem load_timeseries_parameters `{!PartialOrder fle} `{!Total fle} cps sf ld :
  _load_timeseries fle true cps sf = Ok ld →
  StronglySorted (flt fle) (l_parameters ld).*1
  ∧ (∀ cp, cp ∈ cps → t_0 cp ∈ (l_parameters ld).*1)
  ∧ (∀ t p, (t, p) ∈ l_parameters ld →
       ∃ i cp, cps !! i = Some cp ∧ t_0 cp = t ∧ cp_parameters cp = p
               ∧ ∀ j cp', i < j → cps !! j = Some cp' → t_0 cp' ≠ t)
  ∧ (cps ≠ [] → ∀ time, ∃ p, get_parameters fle (l_parameters ld) time = Ok p).
Proof.
  rewrite load_timeseries_Ok. intros [= <-]. cbn [l_parameters].
  rewrite loaded_parameters.
  set (pairs := (fun cp => (t_0 cp, cp_parameters cp)) <$> cps).
  assert (sorted_items fle (PyDict.of_pairs pairs) ≡ₚ PyDict.of_pairs pairs) as Hperm
    by apply merge_sort_Permutation.
  assert (∀ cp, cp ∈ cps → t_0 cp ∈ (sorted_items fle (PyDict.of_pairs pairs)).*1)
    as Hall.
  { intros cp Hcp. rewrite Hperm.
    apply (PyDictFacts.keys_of_pairs (t_0 cp) pairs).
    apply list_elem_of_fmap. exists (t_0 cp, cp_parameters cp). split; [done|].
    apply list_elem_of_fmap. by exists cp. }
  split_and!.
  - apply (strictly_sorted_keys fle).
    + apply StronglySorted_merge_sort; apply _.
    + rewrite Hperm. apply PyDictFacts.NoDup_keys_of_pairs.
  - done.
  - intros t p Hin. rewrite Hperm in Hin.
    apply PyDictFacts.elem_of_get in Hin; [|apply PyDictFacts.NoDup_keys_of_pairs].
    apply get_of_pairs_last in Hin as (i & Hi & Hlast).
    unfold pairs in Hi. rewrite list_lookup_fmap in Hi.
    destruct (cps !! i) as [cp|] eqn:Hcp; [|done]. injection Hi as <- <-.
    exists i, cp. split_and!; [done..|].
    intros j cp' Hj Hcp'. apply (Hlast j (t_0 cp', cp_parameters cp') Hj).
    unfold pairs. by rewrite list_lookup_fmap, Hcp'.
  - intros Hne time.
    destruct (get_parameters_nonempty fle (sorted_items fle (PyDict.of_pairs pairs)) time)
      as (rec & _ & Hrec); [|by eexists].
    destruct cps as [|cp cps']; [done|].
    intros Hnil. specialize (Hall cp ltac:(by left)). rewrite Hnil in Hall.
    by apply elem_of_nil in Hall.
Qed.

(** The field files that are loaded: those of a sought field. *)
Lemma head_filter_app {A} (Q : A → Prop) `{!∀ a, Decision (Q a)} (l1 l2 : list A) :
  head (filter Q (l1 ++ l2))
  = match head (filter Q l1) with
    | Some a => Some a
    | None => head (filter Q l2)
    end.
Proof. rewrite filter_app. by destruct (filter Q l1). Qed.

Lemma mesh_load_files sf files : ∀ st,
  (ls_nodes st = None ↔ ls_elems st = None) →
  (ls_nodes (foldl (load_file sf) st files) = None
   ↔ ls_elems (foldl (load_file sf) st files) = None)
  ∧ ls_nodes (foldl (load_file sf) st files)
    = match ls_nodes st with
      | Some n => Some n
      | None => ff_nodes <$> head (filter (fun ff => sought sf (ff_field ff) = true) files)
      end
  ∧ ls_elems (foldl (load_file sf) st files)
    = match ls_elems st with
      | Some e => Some e
      | None => ff_elems <$> head (filter (fun ff => sought sf (ff_field ff) = true) files)
      end.
Proof.
  induction files as [|ff files IH]; intros st Hinv.
  { cbn. split; [done|]. by destruct (ls_nodes st), (ls_elems st). }
  cbn [foldl]. rewrite filter_cons.
  destruct (IH (load_file sf st ff)) as (Hinv' & Hn & He).
  { unfold load_file. destruct (sought sf (ff_field ff)); [|done].
    cbn [ls_nodes ls_elems].
    destruct (ls_nodes st), (ls_elems st); cbn; try done;
      destruct Hinv as [H1 H2]; (by specialize (H1 eq_refl) || by specialize (H2 eq_refl)). }
  split; [done|]. rewrite Hn, He. unfold load_file.
  destruct (sought sf (ff_field ff)) eqn:Hs.
  - rewrite decide_True by done. cbn [ls_nodes ls_elems head fmap option_fmap option_map].
    destruct (ls_nodes st) as [n|] eqn:Hnodes, (ls_elems st) as [e|] eqn:Helems;
      cbn; try done;
      destruct Hinv as [H1 H2]; (by specialize (H1 eq_refl) || by specialize (H2 eq_refl)).
  - by rewrite decide_False by (by intros ?).
Qed.

Lemma mesh_load_checkpoints sf cps : ∀ st,
  (ls_nodes st = None ↔ ls_elems st = None) →
  (ls_nodes (foldl (load_checkpoint sf) st cps) = None
   ↔ ls_elems (foldl (load_checkpoint sf) st cps) = None)
  ∧ ls_nodes (foldl (load_checkpoint sf) st cps)
    = match ls_nodes st with
      | Some n => Some n
      | None => ff_nodes <$> head (filter (fun ff => sought sf (ff_field ff) = true)
                                          (all_files cps))
      end
  ∧ ls_elems (foldl (load_checkpoint sf) st cps)
    = match ls_elems st with
      | Some e => Some e
      | None => ff_elems <$> head (filter (fun ff => sought sf (ff_field ff) = true)
                                          (all_files cps))
      end.
Proof.
  induction cps as [|cp cps IH]; intros st Hinv.
  { cbn. split; [done|]. by destruct (ls_nodes st), (ls_elems st). }
  cbn [foldl]. unfold all_files. cbn [mbind list_bind]. fold (all_files cps).
  rewrite head_filter_app. unfold load_checkpoint at 2 4 6 8.
  set (st1 := mkLoadState _ (ls_data st) (ls_nodes st) (ls_elems st)).
  destruct (mesh_load_files sf (cp_files cp) st1 Hinv) as (Hinv1 & Hn1 & He1).
  destruct (IH _ Hinv1) as (Hinv2 & Hn2 & He2).
  split; [done|]. rewrite Hn2, He2, Hn1, He1. cbn [st1 ls_nodes ls_elems].
  split.
  - destruct (ls_nodes st); [done|].
    by destruct (head (filter _ (cp_files cp))).
  - destruct (ls_elems st); [done|].
    by destruct (head (filter _ (cp_files cp))).
Qed.

(** X10 (_load_timeseries): the mesh of a loaded series is the one stored in
    the first field file read whose field is sought, and no other; nodes and
    elements are set together, and they are set exactly when the series has
    at least one field. *)
Theorem load_timeseries_mesh cps sf ld :
  _load_timeseries fle true cps sf = Ok ld →
  l_nodes ld
  = ff_nodes <$> head (filter (fun ff => sought sf (ff_field ff) = true) (all_files cps))
  ∧ l_elems ld
    = ff_elems <$> head (filter (fun ff => sought sf (ff_field ff) = true) (all_files cps))
  ∧ (l_nodes ld = None ↔ l_elems ld = None)
  ∧ (l_fields ld = [] ↔ l_nodes ld = None).
Proof.
  rewrite load_timeseries_Ok. intros [= <-]. cbn [l_nodes l_elems l_fields].
  destruct (mesh_load_checkpoints sf cps (mkLoadState [] [] None None))
    as (Hinv & Hn & He); [done|].
  cbn [ls_nodes ls_elems] in Hn, He. split_and!; [done..|].
  rewrite Hn. split.
  - intros Hnil.
    destruct (head (filter _ (all_files cps))) as [ff|] eqn:Hhead; [|done].
    apply head_Some_elem_of, list_elem_of_filter in Hhead as [Hs Hff].
    assert (KStr (ff_field ff)
            ∈ PyDict.keys (collect fle (foldl (data_step sf) [] (all_files cps))).2)
      as Hin.
    { apply loaded_fields. exists (ff_field ff). split; [done|].
      apply data_keys. split; [done|]. apply list_elem_of_fmap. by exists ff. }
    rewrite Hnil in Hin. by apply elem_of_nil in Hin.
  - intros Hnone.
    destruct (PyDict.keys (collect fle _).2) as [|k ks] eqn:Hkeys; [done|].
    assert (k ∈ PyDict.keys (collect fle (foldl (data_step sf) [] (all_files cps))).2)
      as Hin by (rewrite Hkeys; by left).
    apply loaded_fields in Hin as (field & -> & Hin).
    apply data_keys in Hin as [Hs (ff & -> & Hff)%list_elem_of_fmap].
    assert (ff ∈ filter (fun ff => sought sf (ff_field ff) = true) (all_files cps))
      as Hfil by (by apply list_elem_of_filter).
    destruct (filter _ (all_files cps)); [by apply elem_of_nil in Hfil|done].
Qed.

Lemma loaded_dataset sf cps field :
  PyDict.get (KStr field) (collect fle (foldl (data_step sf) [] (all_files cps))).2
  = if decide (sought sf field = true ∧ field ∈ ff_field <$> all_files cps)
    then Some (sorted_items fle (merged sf cps field)).*2
    else None.
Proof.
  rewrite collect_datasets. case_decide as Hin.
  - apply data_keys in Hin.
    rewrite (get_of_pairs_fmap KStr
               (fun key => (sorted_items fle
                  (default [] (PyDict.get key (foldl (data_step sf) [] (all_files cps))))).*2))
      by (done || apply _).
    unfold merged. by rewrite <-data_entries.
  - apply PyDictFacts.get_None_keys. intros Hk. apply Hin, data_keys.
    apply (proj1 (PyDictFacts.keys_of_pairs _ _)) in Hk.
    rewrite <-list_fmap_compose in Hk.
    by apply list_elem_of_fmap in Hk as (key & [= <-] & Hkey).
Qed.

(** X11 (_load_timeseries): restricting the sought fields changes neither
    the parameter records nor the snapshots of a field that stays sought; a
    field that is not sought has no snapshots in the series. *)
Theorem sought_fields_keep_datasets cps (l : list string) ld ld_all :
  _load_timeseries fle true cps (Some l) = Ok ld →
  _load_timeseries fle true cps None = Ok ld_all →
  l_parameters ld = l_parameters ld_all
  ∧ (∀ field, field ∈ l →
       PyDict.get (KStr field) (l_datasets ld)
       = PyDict.get (KStr field) (l_datasets ld_all))
  ∧ (∀ field, field ∉ l → PyDict.get (KStr field) (l_datasets ld) = None).
Proof.
  rewrite !load_timeseries_Ok. intros [= <-] [= <-]. cbn [l_parameters l_datasets].
  split_and!.
  - by rewrite !loaded_parameters.
  - intros field Hin. rewrite !loaded_dataset. unfold merged, entries.
    assert (sought (Some l) field = true) as -> by (by apply bool_decide_eq_true).
    by assert (sought None field = true) as -> by done.
  - intros field Hnin. rewrite loaded_dataset. rewrite decide_False; [done|].
    intros [Hs _]. by apply bool_decide_eq_true in Hs.
Qed.

End loading_more.

Section unit_square_loading.
Import UnitSquare.

(** X9 on the two checkpoints of the unit square. *)
Lemma load_timeseries_parameters_witness :
  ∃ ld, _load_timeseries Z.le true checkpoints0 None = Ok ld
        ∧ StronglySorted (flt Z.le) (l_parameters ld).*1
        ∧ ∀ time, ∃ p, get_parameters Z.le (l_parameters ld) time = Ok p.
Proof.
  destruct (_load_timeseries Z.le true checkpoints0 None) as [ld|e] eqn:Hld;
    [|vm_compute in Hld; discriminate].
  destruct (load_timeseries_parameters Z.le checkpoints0 None ld Hld)
    as (Hsorted & _ & _ & Hget).
  exists ld. split_and!; [done|done|]. by apply Hget.
Defined.

(** X10 when only [u] is sought: the mesh comes from the file of [u]. *)
Lemma load_timeseries_mesh_witness :
  ∃ ld, _load_timeseries Z.le true checkpoints0 (Some ["u"%string]) = Ok ld
        ∧ l_nodes ld = Some nodes0 ∧ l_elems ld = Some elems0.
Proof.
  destruct (_load_timeseries Z.le true checkpoints0 (Some ["u"%string])) as [ld|e] eqn:Hld;
    [|vm_compute in Hld; discriminate].
  destruct (load_timeseries_mesh Z.le checkpoints0 (Some ["u"%string]) ld Hld)
    as (Hn & He & _).
  exists ld. split_and!; [done| |].
  - rewrite Hn. vm_compute. reflexivity.
  - rewrite He. vm_compute. reflexivity.
Defined.

(** X11 when only [u] is sought. *)
Lemma sought_fields_keep_datasets_witness :
  ∃ ld ld_all,
    _load_timeseries Z.le true checkpoints0 (Some ["u"%string]) = Ok ld
    ∧ _load_timeseries Z.le true checkpoints0 None = Ok ld_all
    ∧ PyDict.get (KStr "u") (l_datasets ld) = PyDict.get (KStr "u") (l_datasets ld_all)
    ∧ PyDict.get (KStr "phi") (l_datasets ld) = None.
Proof.
  destruct (_load_timeseries Z.le true checkpoints0 (Some ["u"%string])) as [ld|e] eqn:Hld;
    [|vm_compute in Hld; discriminate].
  destruct (_load_timeseries Z.le true checkpoints0 None) as [ld_all|e] eqn:Hall;
    [|vm_compute in Hall; discriminate].
  destruct (sought_fields_keep_datasets Z.le checkpoints0 ["u"%string] ld ld_all Hld Hall)
    as (_ & Hkept & Hdropped).
  exists ld, ld_all. split_and!; [done|done| |].
  - apply Hkept. by left.
  - apply Hdropped. intros Hin. apply list_elem_of_singleton in Hin. discriminate.
Defined.

End unit_square_loading.

(** ** More about the boundary registry *)

Section boundary_registry_more.
Context {F B : Type} `{EqDecision F} (fle : relation F) `{!RelDecision fle}.
Implicit Types (pass : list (string * list (@SubDomain F B)))
  (bl : list (list (string * list (@SubDomain F B))))
  (btm : list (string * (nat * nat))) (sd : list (@SubDomain F B * nat))
  (boundaries : list (string * list (@SubDomain F B))) (pbc : option (@SubDomain F B)).

Lemma elem_of_entries_from_inv bl k name mark p :
  (name, (mark, p)) ∈ entries_from k bl →
  ∃ j pass i nb, p = k + j ∧ mark = i + 1 ∧ bl !! j = Some pass
                 ∧ pass !! i = Some nb ∧ nb.1 = name.
Proof.
  unfold entries_from. intros (l & Hin & Hl)%list_elem_of_join.
  apply elem_of_lookup_imap in Hl as (j & pass & -> & Hj).
  apply elem_of_lookup_imap in Hin as (i & nb & [= -> -> ->] & Hi).
  by exists j, pass, i, nb.
Qed.

Lemma elem_of_marks_from pass i nb (b : @SubDomain F B) :
  pass !! i = Some nb → b ∈ nb.2 → (b, i + 1) ∈ marks_from 0 pass.
Proof.
  intros Hi Hb. unfold marks_from. apply list_elem_of_join.
  exists ((fun b => (b, 0 + i + 1)) <$> nb.2). split.
  - apply list_elem_of_fmap. by exists b.
  - apply (elem_of_lookup_imap_2
             (fun j nb => (fun b => (b, 0 + j + 1)) <$> nb.2) _ _ _ Hi).
Qed.

(** X12 (get_boundary_to_mark): every entry [(mark, k)] of the registry
    points to something that exists: pass [k] has the name at position
    [mark - 1] (marks start at 1), facet function [k] exists, and every
    predicate of the named boundary was marked [mark] on it. *)
Theorem boundary_to_mark_sound bl (sds0 sds : list (list (@SubDomain F B * nat)))
    btm name mark k :
  length sds0 = length bl →
  get_boundary_to_mark sds0 bl = Ok (sds, btm) →
  PyDict.get name btm = Some (mark, k) →
  length sds = length bl
  ∧ ∃ pass boundary_list sd,
      bl !! k = Some pass ∧ 1 ≤ mark ∧ pass !! (mark - 1) = Some (name, boundary_list)
      ∧ sds !! k = Some sd ∧ ∀ b, b ∈ boundary_list → (b, mark) ∈ sd.
Proof.
  intros Hlen. unfold get_boundary_to_mark.
  rewrite mark_passes_spec by lia. rewrite drop_0. intros [= <- <-] Hget.
  split; [rewrite length_zip_with; lia|].
  apply (PyDictFacts.get_of_pairs_elem_of name (mark, k) (entries_from 0 bl)) in Hget.
  apply elem_of_entries_from_inv in Hget as (j & pass & i & [name' bs] & -> & -> & Hj & Hi & Hn).
  cbn in Hn. subst name'. cbn [Nat.add].
  destruct (sds0 !! j) as [sd0|] eqn:Hsd0.
  2:{ apply lookup_ge_None in Hsd0. apply lookup_lt_Some in Hj. lia. }
  exists pass, bs, (sd0 ++ marks_from 0 pass). split_and!.
  - done.
  - lia.
  - by replace (i + 1 - 1) with i by lia.
  - by rewrite lookup_zip_with, Hsd0, Hj.
  - intros b Hb. apply elem_of_app. right.
    by apply (elem_of_marks_from pass i (name, bs)).
Qed.

Lemma get_boundaries_list_no_cross_section boundaries pbc keys
    (nodes : list (list F)) :
  cross_section_names keys = [] →
  get_boundaries_list fle boundaries pbc keys nodes = Ok [pass_one boundaries pbc].
Proof.
  unfold cross_section_names. intros Hnil.
  unfold get_boundaries_list, add_cross_section.
  repeat case_decide; try discriminate Hnil.
  cbn [mbind result_bind]. rewrite decide_False by (cbn; lia).
  by destruct pbc.
Qed.

(** X13 (fetch_boundaries): when no cross-section is requested (as with the
    default, empty request), the nodes are never looked at: whatever they
    are, there is exactly one facet function, marked for the boundaries of
    the problem, and every registry entry points to it. *)
Theorem fetch_boundaries_without_cross_sections boundaries pbc extra
    (nodes : list (list F)) :
  cross_section_names (PyStr.lower <$> PyStr.split PyStr.comma extra) = [] →
  ∃ btm, fetch_boundaries fle boundaries pbc extra nodes
         = Ok (btm, [marks_from 0 (pass_one boundaries pbc)])
         ∧ fetch_boundaries fle boundaries pbc extra []
           = Ok (btm, [marks_from 0 (pass_one boundaries pbc)])
         ∧ ∀ name mark k, PyDict.get name btm = Some (mark, k) → k = 0.
Proof.
  intros Hnil. unfold fetch_boundaries.
  rewrite !(get_boundaries_list_no_cross_section _ _ _ _ Hnil).
  cbn [mbind result_bind fmap list_fmap]. unfold get_boundary_to_mark.
  rewrite mark_passes_spec by done. rewrite drop_0.
  cbn [mbind result_bind fst snd zip_with app].
  eexists. split_and!; [done|done|].
  intros name mark k Hget.
  apply (PyDictFacts.get_of_pairs_elem_of name (mark, k)
           (entries_from 0 [pass_one boundaries pbc])) in Hget.
  apply elem_of_entries_from_inv in Hget as (j & pass & i & nb & -> & _ & Hj & _).
  apply lookup_lt_Some in Hj. cbn in Hj. lia.
Qed.

Lemma lower_ascii_comma c : PyStr.lower_ascii c = PyStr.comma ↔ c = PyStr.comma.
Proof.
  destruct c as [[] [] [] [] [] [] [] []]; vm_compute; split; congruence.
Qed.

Lemma lower_ascii_idemp c : PyStr.lower_ascii (PyStr.lower_ascii c) = PyStr.lower_ascii c.
Proof. destruct c as [[] [] [] [] [] [] [] []]; vm_compute; reflexivity. Qed.

Lemma lower_idemp s : PyStr.lower (PyStr.lower s) = PyStr.lower s.
Proof.
  induction s as [|c s IH]; [done|]. cbn [PyStr.lower].
  by rewrite lower_ascii_idemp, IH.
Qed.

Lemma split_comma_lower s :
  PyStr.split PyStr.comma (PyStr.lower s) = PyStr.lower <$> PyStr.split PyStr.comma s.
Proof.
  induction s as [|c s IH]; [done|]. cbn [PyStr.lower PyStr.split]. rewrite IH.
  destruct (decide (c = PyStr.comma)) as [Hc|Hc].
  - rewrite decide_True by (by apply lower_ascii_comma). done.
  - rewrite decide_False by (by rewrite lower_ascii_comma).
    by destruct (PyStr.split PyStr.comma s).
Qed.

(** X14 (fetch_boundaries): the request for cross-sections is read without
    regard to case: a request and its lower-case form give the same
    registry and the same facet functions. *)
Theorem fetch_boundaries_case_insensitive boundaries pbc extra (nodes : list (list F)) :
  fetch_boundaries fle boundaries pbc (PyStr.lower extra) nodes
  = fetch_boundaries fle boundaries pbc extra nodes.
Proof.
  unfold fetch_boundaries. rewrite split_comma_lower, <-list_fmap_compose.
  assert ((PyStr.lower ∘ PyStr.lower) <$> PyStr.split PyStr.comma extra
          = PyStr.lower <$> PyStr.split PyStr.comma extra) as ->; [|done].
  apply list_fmap_ext. intros. apply lower_idemp.
Qed.

End boundary_registry_more.

Section unit_square_boundaries.
Import UnitSquare.

(** X12 on the passes for the request [top,left]. *)
Lemma boundary_to_mark_sound_witness :
  ∃ sds btm, get_boundary_to_mark [[]; []] passes0 = Ok (sds, btm)
             ∧ PyDict.get "extra_top"%string btm = Some (2, 1)
             ∧ length sds = 2.
Proof.
  destruct (get_boundary_to_mark [[]; []] passes0) as [[sds btm]|e] eqn:Hmark;
    [|vm_compute in Hmark; discriminate].
  assert (PyDict.get "extra_top"%string btm = Some (2, 1)) as Hget.
  { vm_compute in Hmark. injection Hmark as <- <-. vm_compute. reflexivity. }
  destruct (boundary_to_mark_sound passes0 [[]; []] sds btm "extra_top"%string 2 1
              eq_refl Hmark Hget) as [Hlen _].
  by exists sds, btm.
Defined.

(** X13 for the default request. *)
Lemma fetch_boundaries_without_cross_sections_witness :
  ∃ btm, fetch_boundaries Z.le boundaries0 pbc0 "" nodes0
         = Ok (btm, [marks_from 0 (pass_one boundaries0 pbc0)])
         ∧ fetch_boundaries Z.le boundaries0 pbc0 "" []
           = Ok (btm, [marks_from 0 (pass_one boundaries0 pbc0)]).
Proof.
  destruct (fetch_boundaries_without_cross_sections Z.le boundaries0 pbc0 "" nodes0)
    as (btm & Hnodes & Hnone & _); [vm_compute; reflexivity|].
  by exists btm.
Defined.

End unit_square_boundaries.

(** ** The header of the flux tables *)

Section flux_header_facts.
Context {F E : Type} (of_int : Z → F) (flux_integral : E → nat → nat → Z → F).
Implicit Types (X : list (list F)) (row : list F) (steps : list Z)
  (fluxes : list (string * E)).

Lemma flux_header_split fluxes :
  fluxes ≠ [] →
  Forall (fun name => PyStr.contains PyStr.tab name = false) (PyDict.keys fluxes) →
  PyStr.split PyStr.tab (flux_header fluxes)
  = "Step"%string :: "Time"%string :: flux_keys fluxes.
Proof.
  intros Hne Hclean. unfold flux_header.
  assert (flux_keys fluxes ≡ₚ PyDict.keys fluxes) as Hperm
    by apply merge_sort_Permutation.
  change (PyStr.of_ascii PyStr.tab +:+ ?s) with (String PyStr.tab s).
  rewrite (split_append PyStr.tab "Step") by reflexivity.
  change (PyStr.of_ascii PyStr.tab +:+ ?s) with (String PyStr.tab s).
  rewrite (split_append PyStr.tab "Time") by reflexivity.
  rewrite split_join; [done| |by rewrite Hperm].
  intros Hnil. rewrite Hnil in Hperm. symmetry in Hperm.
  apply Permutation_nil_r in Hperm. by destruct fluxes.
Qed.

(** X15 (method): for at least one flux and flux names without a tab, the
    header of a flux table, split at its tabs, is [Step], [Time] and the
    flux names in sorted order, and every row of the table has one cell for
    each of these names. *)
Theorem flux_header_names_columns (times : list F) fluxes steps (mark_k : nat * nat) X :
  fluxes ≠ [] →
  Forall (fun name => PyStr.contains PyStr.tab name = false) (PyDict.keys fluxes) →
  savedata of_int flux_integral times fluxes steps mark_k = Ok X →
  PyStr.split PyStr.tab (flux_header fluxes)
  = "Step"%string :: "Time"%string :: flux_keys fluxes
  ∧ Forall (fun row => length row
                       = length (PyStr.split PyStr.tab (flux_header fluxes))) X.
Proof.
  intros Hne Hclean Hsave. rewrite (flux_header_split fluxes Hne Hclean).
  split; [done|].
  apply savedata_rows in Hsave. apply Forall_forall. intros row Hrow.
  apply list_elem_of_lookup in Hrow as [i Hi].
  destruct (Forall2_lookup_r _ _ _ _ _ Hsave Hi) as (step & _ & t & fl & _ & Hfl & ->).
  apply Forall2_length in Hfl. cbn [length]. by rewrite length_fmap, Hfl.
Qed.

End flux_header_facts.

Section unit_square_header.
Import UnitSquare.

(** X15 on the three fluxes of the unit square. *)
Lemma flux_header_names_columns_witness :
  PyStr.split PyStr.tab (flux_header fluxes0)
  = ["Step"; "Time"; "Mass"; "Phase"; "Velocity"]%string
  ∧ ∃ X, savedata (fun n : Z => n) flux_integral0 [0; 1]%Z fluxes0 [1; 0]%Z (1, 0) = Ok X
         ∧ Forall (fun row => length row = 5) X.
Proof.
  destruct (savedata (fun n : Z => n) flux_integral0 [0; 1]%Z fluxes0 [1; 0]%Z (1, 0))
    as [X|e] eqn:Hsave; [|vm_compute in Hsave; discriminate].
  destruct (flux_header_names_columns (fun n : Z => n) flux_integral0 [0; 1]%Z fluxes0
              [1; 0]%Z (1, 0) X) as [Hheader Hrows].
  - done.
  - repeat constructor.
  - exact Hsave.
  - split; [rewrite Hheader; vm_compute; reflexivity|].
    exists X. split; [done|]. rewrite Hheader in Hrows. exact Hrows.
Defined.

End unit_square_header.

(** ** Updating functions *)

Section updating.
Context {F P : Type} `{EqDecision F} (fzero : F).
Implicit Types (ts : @TimeSeries F P) (f g : @Function F)
  (fs : list pykey) (fd : list (pykey * @Function F)).

Lemma py_index_out_of_range {A} (l : list A) (i : Z) :
  ¬ (- Z.of_nat (length l) ≤ i < Z.of_nat (length l))%Z → py_index l i = Raise IndexError.
Proof.
  intros Hout. destruct (py_index l i) as [a|e] eqn:Hidx.
  - destruct Hout. apply py_index_is_Ok. by exists a.
  - by apply py_index_error in Hidx as ->.
Qed.

(** X16 (update): a field that has no snapshots in the series makes [update]
    raise [KeyError], and a step outside the snapshots of the field makes it
    raise [IndexError]; in both cases nothing has been written. *)
Theorem update_unknown_field_or_step ts f (field : string) (step : Z) :
  (PyDict.get (KStr field) (datasets ts) = None →
   update ts f field step = Raise KeyError)
  ∧ (∀ series, PyDict.get (KStr field) (datasets ts) = Some series →
       ¬ (- Z.of_nat (length series) ≤ step < Z.of_nat (length series))%Z →
       update ts f field step = Raise IndexError).
Proof.
  split.
  - intros Hnone. unfold update. case_decide as Hu.
    + subst field. by rewrite Hnone.
    + by rewrite Hnone.
  - intros series Hsome Hout. unfold update. case_decide as Hu.
    + subst field. rewrite Hsome. cbn [of_option mbind result_bind].
      by rewrite py_index_out_of_range.
    + rewrite Hsome. cbn [of_option mbind result_bind].
      by rewrite py_index_out_of_range.
Qed.

Lemma with_dummy_same ts : with_dummy ts (dummy_function ts) = ts.
Proof. by destruct ts. Qed.

Lemma update_u_frame n : ∀ i (u_data : @ndarray F) ts f ts' f',
  update_u n i u_data ts f = Ok (ts', f') → ∃ d, ts' = with_dummy ts d.
Proof.
  induction n as [|n IH]; intros i u_data ts f ts' f' Hup.
  - injection Hup as <- <-. exists (dummy_function ts). by rewrite with_dummy_same.
  - cbn [update_u] in Hup. bind_inv Hup.
    apply IH in Hup as [d ->]. by exists d.
Qed.

Lemma update_frame ts f (field : string) step ts' f' :
  update ts f field step = Ok (ts', f') → ∃ d, ts' = with_dummy ts d.
Proof.
  unfold update. case_decide; intros Hup; bind_inv Hup.
  - by apply update_u_frame in Hup.
  - injection Hup as <- <-. exists (dummy_function ts). by rewrite with_dummy_same.
Qed.

Lemma update_field_frame ts f (field : pykey) step ts' f' :
  update_field ts f field step = Ok (ts', f') → ∃ d, ts' = with_dummy ts d.
Proof.
  destruct field as [[name|n]|l]; cbn [update_field]; [apply update_frame|..];
    intros Hup; bind_inv Hup; injection Hup as <- <-;
    exists (dummy_function ts); by rewrite with_dummy_same.
Qed.

Lemma update_all_loop_spec step fs : ∀ ts fd ts' fd',
  NoDup fs → update_all_loop ts fd fs step = Ok (ts', fd') →
  (∃ d, ts' = with_dummy ts d)
  ∧ PyDict.keys fd' = PyDict.keys fd
  ∧ (∀ key, key ∉ fs → PyDict.get key fd' = PyDict.get key fd)
  ∧ (∀ field, field ∈ fs →
       ∃ g ts_a ts_b g',
         PyDict.get field fd = Some g ∧ (∃ d, ts_a = with_dummy ts d)
         ∧ update_field ts_a g field step = Ok (ts_b, g')
         ∧ PyDict.get field fd' = Some g').
Proof.
  induction fs as [|field fs IH]; intros ts fd ts' fd' Hnd Hup.
  { injection Hup as <- <-. split_and!; [|done|done|].
    - exists (dummy_function ts). by rewrite with_dummy_same.
    - intros field Hin. by apply elem_of_nil in Hin. }
  apply NoDup_cons in Hnd as [Hnin Hnd].
  cbn [update_all_loop] in Hup.
  destruct (PyDict.get field fd) as [g|] eqn:Hg; [|done].
  cbn [of_option mbind result_bind] in Hup.
  destruct (update_field ts g field step) as [[ts1 g1]|e] eqn:Hfield; [|done].
  cbn [mbind result_bind fst snd] in Hup.
  destruct (update_field_frame _ _ _ _ _ _ Hfield) as [d1 ->].
  destruct (IH _ _ _ _ Hnd Hup) as ([d ->] & Hkeys & Hother & Heach).
  split_and!.
  - by exists d.
  - rewrite Hkeys, PyDictFacts.keys_set.
    unfold PyDict.mem. by rewrite Hg.
  - intros key Hkey. apply not_elem_of_cons in Hkey as [Hne Hkey].
    rewrite (Hother key Hkey). by apply PyDictFacts.get_set_ne.
  - intros field' [->|Hin]%elem_of_cons.
    + exists g, ts, (with_dummy ts d1), g1. split_and!; [done| |done|].
      * exists (dummy_function ts). by rewrite with_dummy_same.
      * rewrite (Hother field Hnin). apply PyDictFacts.get_set_eq.
    + destruct (Heach field' Hin) as (g' & ts_a & ts_b & g'' & Hget & [da ->] & Hupd & Hres).
      exists g', (with_dummy ts da), ts_b, g''. split_and!; [|by exists da|done|done].
      rewrite PyDictFacts.get_set_ne in Hget; [done|]. intros ->. done.
Qed.

(** X17 (update_all): for a series whose fields are pairwise different,
    [update_all] changes nothing of the series but its scratch function,
    keeps the keys of the dict of functions, leaves the functions of other
    keys alone, and replaces the function of every field by what [update]
    makes of it for that field and step. *)
Theorem update_all_updates_each_field ts fd step ts' fd' :
  NoDup (fields ts) → update_all ts fd step = Ok (ts', fd') →
  (∃ d, ts' = with_dummy ts d)
  ∧ PyDict.keys fd' = PyDict.keys fd
  ∧ (∀ key, key ∉ fields ts → PyDict.get key fd' = PyDict.get key fd)
  ∧ (∀ field, field ∈ fields ts →
       ∃ g ts_a ts_b g',
         PyDict.get field fd = Some g ∧ (∃ d, ts_a = with_dummy ts d)
         ∧ update_field ts_a g field step = Ok (ts_b, g')
         ∧ PyDict.get field fd' = Some g').
Proof. apply update_all_loop_spec. Qed.

Lemma functions_of_pairs ts (l : list pykey) :
  foldl (fun acc field => PyDict.set field (function fzero ts field) acc) [] l
  = PyDict.of_pairs ((fun field => (field, function fzero ts field)) <$> l).
Proof.
  unfold PyDict.of_pairs. generalize (@nil (pykey * @Function F)).
  induction l as [|field l IH]; intros acc; [done|]. cbn. apply IH.
Qed.

(** X18 (functions, update_all): [functions] makes one new function for
    every name requested (the fields of the series by default) and for no
    other key, so that [update_all] applied to its result for a series with
    pairwise different fields updates, for every field, the new function
    made for that field. *)
Theorem update_all_on_new_functions ts (fields_arg : option (list pykey)) :
  (∀ field, field ∈ default (fields ts) fields_arg →
     PyDict.get field (functions fzero ts fields_arg) = Some (function fzero ts field))
  ∧ (∀ key, key ∉ default (fields ts) fields_arg →
       PyDict.get key (functions fzero ts fields_arg) = None)
  ∧ (∀ step ts' fd', NoDup (fields ts) →
       update_all ts (functions fzero ts None) step = Ok (ts', fd') →
       ∀ field, field ∈ fields ts →
         ∃ ts_a ts_b g',
           (∃ d, ts_a = with_dummy ts d)
           ∧ update_field ts_a (function fzero ts field) field step = Ok (ts_b, g')
           ∧ PyDict.get field fd' = Some g').
Proof.
  assert (∀ fa field, field ∈ default (fields ts) fa →
            PyDict.get field (functions fzero ts fa)
            = Some (function fzero ts field)) as Hnew.
  { intros fa field Hin. unfold functions. rewrite functions_of_pairs.
    apply (get_of_pairs_fmap id (function fzero ts)); [apply _|].
    by destruct fa. }
  split_and!; [apply Hnew| |].
  - intros key Hkey. unfold functions. rewrite functions_of_pairs.
    apply PyDictFacts.get_None_keys. intros Hin. apply Hkey.
    apply (proj1 (PyDictFacts.keys_of_pairs _ _)) in Hin.
    rewrite <-list_fmap_compose in Hin.
    apply list_elem_of_fmap in Hin as (field & -> & Hin). by destruct fields_arg.
  - intros step ts' fd' Hnd Hup field Hin.
    destruct (update_all_loop_spec _ _ _ _ _ _ Hnd Hup) as (_ & _ & _ & Heach).
    destruct (Heach field Hin) as (g & ts_a & ts_b & g' & Hget & Hts & Hupd & Hres).
    rewrite (Hnew None field) in Hget by done. injection Hget as <-.
    by exists ts_a, ts_b, g'.
Qed.

End updating.

Section unit_square_updating.
Import UnitSquare.

(** X17 on the unit square, with new functions, at step 1. *)
Lemma update_all_updates_each_field_witness :
  ∃ ts' fd', update_all ts0 (functions 0%Z ts0 None) 1 = Ok (ts', fd')
             ∧ PyDict.keys fd' = [KStr "phi"; KStr "u"]
             ∧ ∃ d, ts' = with_dummy ts0 d.
Proof.
  destruct (update_all ts0 (functions 0%Z ts0 None) 1) as [[ts' fd']|e] eqn:Hup;
    [|vm_compute in Hup; discriminate].
  destruct (update_all_updates_each_field ts0 (functions 0%Z ts0 None) 1 ts' fd')
    as (Hts & Hkeys & _).
  - compute_done.
  - exact Hup.
  - exists ts', fd'. split_and!; [done| |done].
    rewrite Hkeys. vm_compute. reflexivity.
Defined.

End unit_square_updating.

(** ** The steps a process handles itself *)

Section geometry_own_steps.
Context {F P : Type} `{EqDecision F}
        (fzero : F) (fmul fdiv : F → F → F) (mask_of : F → F)
        (contour_length : list (list F) → list (list nat) → list F → F)
        (assemble : @Function F → F).
Implicit Types (ts : @TimeSeries F P) (st : @geometry_state F).

Lemma set_areas_x_shape n step fs : ∀ d ax ax',
  set_areas_x assemble n d step fs ax = Ok ax' → length <$> ax' = length <$> ax.
Proof.
  induction n as [|n IH]; intros d ax ax' Hset; cbn [set_areas_x] in Hset.
  - by injection Hset as <-.
  - bind_inv Hset. apply IH in Hset. rewrite Hset.
    destruct (ax !! d) as [row|] eqn:Hd; [|done]. cbn in E0. injection E0 as <-.
    rewrite list_fmap_insert, length_insert. apply list_insert_id.
    by rewrite list_lookup_fmap, Hd.
Qed.

Lemma set_areas_x_below n step fs : ∀ d ax ax' d',
  set_areas_x assemble n d step fs ax = Ok ax' → d' < d → ax' !! d' = ax !! d'.
Proof.
  induction n as [|n IH]; intros d ax ax' d' Hset Hlt; cbn [set_areas_x] in Hset.
  - by injection Hset as <-.
  - bind_inv Hset. rewrite (IH _ _ _ d' Hset) by lia.
    apply list_lookup_insert_ne. lia.
Qed.

Lemma set_areas_x_own n step fs : ∀ d ax ax' d',
  set_areas_x assemble n d step fs ax = Ok ax' → d ≤ d' < d + n →
  Forall (fun m => step < m) (length <$> ax) →
  ∃ f, fs !! d' = Some f
       ∧ (ax' !! d') ≫= (fun a => a !! step) = Some (assemble f).
Proof.
  induction n as [|n IH]; intros d ax ax' d' Hset Hd Hlen; [lia|].
  cbn [set_areas_x] in Hset. bind_inv Hset.
  destruct (fs !! d) as [f|] eqn:Hf; [|done]. cbn in E. injection E as <-.
  destruct (ax !! d) as [row|] eqn:Hrow; [|done]. cbn in E0. injection E0 as <-.
  assert (step < length row) as Hstep.
  { apply (proj1 (Forall_lookup _ _) Hlen d). by rewrite list_lookup_fmap, Hrow. }
  destruct (decide (d' = d)) as [->|Hne].
  - exists f. split; [done|].
    rewrite (set_areas_x_below _ _ _ _ _ _ d Hset) by lia.
    rewrite list_lookup_insert_eq by (by eapply lookup_lt_Some).
    cbn. by apply list_lookup_insert_eq.
  - apply (IH _ _ _ d' Hset); [lia|].
    rewrite list_fmap_insert, length_insert.
    rewrite list_insert_id; [done|]. by rewrite list_lookup_fmap, Hrow.
Qed.

Lemma geometry_step_shape ts st st' step :
  geometry_step fmul mask_of contour_length assemble ts st step = Ok st' →
  length (lengths st') = length (lengths st)
  ∧ length (areas st') = length (areas st)
  ∧ length <$> areas_x st' = length <$> areas_x st.
Proof.
  intros Hstep. unfold geometry_step in Hstep. bind_inv Hstep.
  injection Hstep as <-. cbn [lengths areas areas_x].
  rewrite !length_insert. split_and!; [done|done|].
  by eapply set_areas_x_shape.
Qed.

Lemma geometry_step_own ts st st' s :
  geometry_step fmul mask_of contour_length assemble ts st s = Ok st' →
  s < length (lengths st) → s < length (areas st) →
  Forall (fun m => s < m) (length <$> areas_x st) →
  ∃ phi fm fmx, step_functions fmul mask_of ts st s phi fm fmx
                ∧ holds_step contour_length assemble ts st' s phi fm fmx.
Proof.
  intros Hstep Hl Ha Hx. unfold geometry_step in Hstep.
  destruct (__getitem__ ts (KTuple [AStr "phi"; AInt (Z.of_nat s)])) as [v|] eqn:Hget;
    [|done].
  cbn [mbind result_bind] in Hstep.
  destruct v as [|series|snapshot]; try done. cbn [mbind result_bind] in Hstep.
  destruct (arr_col 0 snapshot ≫= arr1) as [phi|] eqn:Hphi; [|done].
  cbn [mbind result_bind] in Hstep.
  destruct (set_val ts (f_mask st) (Arr1 (mask_of <$> phi))) as [fm|] eqn:Hfm; [|done].
  cbn [mbind result_bind] in Hstep.
  destruct (set_mask_x fmul (dim ts) 0 ts (mask_of <$> phi) (f_mask_x st)) as [fmx|] eqn:Hfmx;
    [|done].
  cbn [mbind result_bind] in Hstep.
  destruct (set_areas_x assemble (dim ts) 0 s fmx (areas_x st)) as [ax|] eqn:Hax; [|done].
  cbn [mbind result_bind] in Hstep. injection Hstep as <-.
  exists phi, fm, fmx. split.
  - split_and!; [by exists snapshot|done|done].
  - unfold holds_step. cbn [lengths areas areas_x]. split_and!.
    + by apply list_lookup_insert_eq.
    + by apply list_lookup_insert_eq.
    + intros d Hd. apply (set_areas_x_own _ _ _ _ _ _ d Hax); [lia|done].
Qed.

Lemma geometry_steps_own ts steps s : ∀ st st',
  geometry_steps fmul mask_of contour_length assemble ts st steps = Ok st' →
  NoDup steps → s ∈ steps →
  s < length (lengths st) → s < length (areas st) →
  Forall (fun m => s < m) (length <$> areas_x st) →
  ∃ st_b phi fm fmx, step_functions fmul mask_of ts st_b s phi fm fmx
                     ∧ holds_step contour_length assemble ts st' s phi fm fmx.
Proof.
  induction steps as [|step steps IH]; intros st st' Hsteps Hnd Hin Hl Ha Hx.
  { by apply elem_of_nil in Hin. }
  cbn [geometry_steps] in Hsteps.
  destruct (geometry_step fmul mask_of contour_length assemble ts st step)
    as [st1|] eqn:Hstep; [|done].
  cbn [mbind result_bind] in Hsteps.
  apply NoDup_cons in Hnd as [Hnin Hnd].
  apply elem_of_cons in Hin as [->|Hin].
  - destruct (geometry_step_own _ _ _ _ Hstep Hl Ha Hx) as (phi & fm & fmx & Hfun & Hl1 & Ha1 & Hx1).
    destruct (geometry_steps_untouched _ _ _ _ _ _ _ _ _ Hsteps Hnin) as (Hul & Hua & _ & Hux).
    exists st, phi, fm, fmx. split; [done|]. split_and!.
    + by rewrite Hul.
    + by rewrite Hua.
    + intros d Hd. destruct (Hx1 d Hd) as (f & Hf & Hval).
      exists f. split; [done|]. by rewrite Hux.
  - destruct (geometry_step_shape _ _ _ _ Hstep) as (Hsl & Hsa & Hsx).
    apply (IH st1 st' Hsteps Hnd Hin); [by rewrite Hsl|by rewrite Hsa|by rewrite Hsx].
Qed.

Lemma geometry_steps_shape ts steps : ∀ st st',
  geometry_steps fmul mask_of contour_length assemble ts st steps = Ok st' →
  length <$> areas_x st' = length <$> areas_x st.
Proof.
  induction steps as [|step steps IH]; intros st st' Hsteps; cbn [geometry_steps] in Hsteps.
  - by injection Hsteps as <-.
  - bind_inv Hsteps. rewrite (IH _ _ Hsteps).
    by destruct (geometry_step_shape _ _ _ _ E) as (_ & _ & ->).
Qed.

Lemma NoDup_py_range start stop step : NoDup (py_range start stop step).
Proof.
  unfold py_range. case_decide as Hstep; [constructor|].
  apply NoDup_fmap_2; [|apply NoDup_seq].
  intros k1 k2 Hk. nia.
Qed.

(** X19 (geometry_in_time): in the table process 0 writes, the row of every
    step it handles itself (every step, in a run on one process) holds the
    quantities of that step: the time, the contour length of [phi] at that
    step, the integral of the mask function set from it, and the two
    integrals of mask times coordinate divided by the integral of the
    mask. *)
Theorem geometry_rank0_own_rows size new_function ts table s :
  0 < size →
  geometry_in_time fzero fmul fdiv mask_of contour_length assemble 0 size new_function ts
  = Ok (Some table) →
  s < __len__ ts → s mod size = 0 →
  ∃ t st_b phi fm fmx fx fy,
    times ts !! s = Some t
    ∧ step_functions fmul mask_of ts st_b s phi fm fmx
    ∧ fmx !! 0 = Some fx ∧ fmx !! 1 = Some fy
    ∧ table !! s = Some [t; contour_length (nodes ts) (elems ts) phi; assemble fm;
                         fdiv (assemble fx) (assemble fm);
                         fdiv (assemble fy) (assemble fm)].
Proof.
  intros Hsize Hrun Hs Hmod. unfold geometry_in_time in Hrun.
  destruct (geometry_steps _ _ _ _ ts _ (py_range 0 (__len__ ts) size)) as [st|] eqn:Hsteps;
    [|done].
  cbn [mbind result_bind] in Hrun. rewrite decide_True in Hrun by done.
  destruct (areas_x st !! 0) as [ax0|] eqn:H0; [|done].
  destruct (areas_x st !! 1) as [ax1|] eqn:H1; [|done].
  cbn [of_option mbind result_bind] in Hrun. injection Hrun as <-.
  pose proof (geometry_steps_shape _ _ _ _ Hsteps) as Hshape.
  cbn [areas_x] in Hshape.
  assert (1 < dim ts) as Hdim.
  { apply lookup_lt_Some in H1. apply (f_equal length) in Hshape.
    rewrite !length_fmap, length_replicate in Hshape. lia. }
  destruct (geometry_steps_own ts _ s _ _ Hsteps) as (st_b & phi & fm & fmx & Hfun & Hl & Ha & Hx).
  - apply NoDup_py_range.
  - rewrite elem_of_py_range by done. rewrite Nat.sub_0_r. lia.
  - cbn [lengths]. by rewrite length_replicate.
  - cbn [areas]. by rewrite length_replicate.
  - cbn [areas_x]. rewrite fmap_replicate, length_replicate.
    by apply Forall_replicate.
  - destruct (Hx 0) as (fx & Hfx & Hvx); [lia|].
    destruct (Hx 1) as (fy & Hfy & Hvy); [lia|].
    rewrite H0 in Hvx. rewrite H1 in Hvy. cbn in Hvx, Hvy.
    destruct (lookup_lt_is_Some_2 (times ts) s Hs) as [t Ht].
    exists t, st_b, phi, fm, fmx, fx, fy. split_and!; [done..|].
    by rewrite !lookup_zip_with, Ht, Hl, Ha, Hvx, Hvy.
Qed.

End geometry_own_steps.

Section unit_square_geometry.
Import UnitSquare.

(** X19 on the unit square, run on one process: the row of step 1. *)
Lemma geometry_rank0_own_rows_witness :
  ∃ table, geometry 0 1 = Ok (Some table)
           ∧ ∃ t st_b phi fm fmx fx fy,
               times ts0 !! 1 = Some t
               ∧ step_functions Z.mul mask_of ts0 st_b 1 phi fm fmx
               ∧ fmx !! 0 = Some fx ∧ fmx !! 1 = Some fy
               ∧ table !! 1 = Some [t; contour_length nodes0 elems0 phi; assemble fm;
                                    (assemble fx `div` assemble fm)%Z;
                                    (assemble fy `div` assemble fm)%Z].
Proof.
  destruct (geometry 0 1) as [[table|]|e] eqn:Hrun;
    [|vm_compute in Hrun; discriminate..].
  exists table. split; [done|].
  apply (geometry_rank0_own_rows 0%Z Z.mul Z.div mask_of contour_length assemble 1
           (Scalar [0; 0; 0; 0]%Z) ts0 table 1); [lia|exact Hrun|cbn; lia|reflexivity].
Defined.

End unit_square_geometry.

(** ** The shape of the geometry table *)

Section geometry_table.
Context {F P : Type} `{EqDecision F}
        (fzero : F) (fmul fdiv : F → F → F) (mask_of : F → F)
        (contour_length : list (list F) → list (list nat) → list F → F)
        (assemble : @Function F → F).
Implicit Types (ts : @TimeSeries F P) (st : @geometry_state F).

Lemma geometry_steps_lengths ts steps : ∀ st st',
  geometry_steps fmul mask_of contour_length assemble ts st steps = Ok st' →
  length (lengths st') = length (lengths st) ∧ length (areas st') = length (areas st).
Proof.
  induction steps as [|step steps IH]; intros st st' Hsteps; cbn [geometry_steps] in Hsteps.
  - by injection Hsteps as <-.
  - bind_inv Hsteps. destruct (IH _ _ Hsteps) as [-> ->].
    by destruct (geometry_step_shape _ _ _ _ _ _ _ _ E) as (-> & -> & _).
Qed.

(** X20 (geometry_in_time): when process 0 writes its table, the mesh has at
    least two dimensions (on a one-dimensional mesh the function raises),
    and the table has one row for every step of the series, also for the
    steps of other processes, each row with exactly five entries whatever
    the dimension. *)
Theorem geometry_table_shape size new_function ts table :
  geometry_in_time fzero fmul fdiv mask_of contour_length assemble 0 size new_function ts
  = Ok (Some table) →
  1 < dim ts ∧ length table = __len__ ts ∧ Forall (fun row => length row = 5) table.
Proof.
  intros Hrun. unfold geometry_in_time in Hrun.
  destruct (geometry_steps _ _ _ _ ts _ (py_range 0 (__len__ ts) size)) as [st|] eqn:Hsteps;
    [|done].
  cbn [mbind result_bind] in Hrun. rewrite decide_True in Hrun by done.
  destruct (areas_x st !! 0) as [ax0|] eqn:H0; [|done].
  destruct (areas_x st !! 1) as [ax1|] eqn:H1; [|done].
  cbn [of_option mbind result_bind] in Hrun. injection Hrun as <-.
  pose proof (geometry_steps_shape _ _ _ _ _ _ _ _ Hsteps) as Hshape.
  destruct (geometry_steps_lengths _ _ _ _ Hsteps) as [Hl Ha].
  cbn [areas_x lengths areas] in Hshape, Hl, Ha.
  rewrite length_replicate in Hl, Ha. rewrite fmap_replicate, length_replicate in Hshape.
  assert (length ax0 = __len__ ts) as Hax0.
  { assert ((length <$> areas_x st) !! 0 = Some (length ax0)) as Hlk
      by (by rewrite list_lookup_fmap, H0).
    rewrite Hshape in Hlk. by apply lookup_replicate in Hlk as [<- _]. }
  assert (length ax1 = __len__ ts) as Hax1.
  { assert ((length <$> areas_x st) !! 1 = Some (length ax1)) as Hlk
      by (by rewrite list_lookup_fmap, H1).
    rewrite Hshape in Hlk. by apply lookup_replicate in Hlk as [<- _]. }
  split_and!.
  - apply lookup_lt_Some in H1. apply (f_equal length) in Hshape.
    rewrite length_fmap, length_replicate in Hshape. lia.
  - rewrite !length_zip_with. unfold __len__ in *. lia.
  - apply Forall_lookup. intros i row Hrow.
    apply lookup_zip_with_Some in Hrow as (t & r1 & -> & _ & Hr1).
    apply lookup_zip_with_Some in Hr1 as (l & r2 & -> & _ & Hr2).
    apply lookup_zip_with_Some in Hr2 as (a & r3 & -> & _ & Hr3).
    by apply lookup_zip_with_Some in Hr3 as (cx & cy & -> & _ & _).
Qed.

End geometry_table.

Section unit_square_table.
Import UnitSquare.

(** X20 on the unit square, for process 0 of two. *)
Lemma geometry_table_shape_witness :
  ∃ table, geometry 0 2 = Ok (Some table)
           ∧ 1 < dim ts0 ∧ length table = __len__ ts0
           ∧ Forall (fun row => length row = 5) table.
Proof.
  destruct (geometry 0 2) as [[table|]|e] eqn:Hrun;
    [|vm_compute in Hrun; discriminate..].
  exists table. split; [done|].
  exact (geometry_table_shape 0%Z Z.mul Z.div mask_of contour_length assemble 2
           (Scalar [0; 0; 0; 0]%Z) ts0 table Hrun).
Defined.

End unit_square_table.
